(** * Tic Tac Toe with chat reactions: the App component's state machine

    A shallow embedding of [App.js] (the version with the chat box): the
    state held by the component's [useState] hooks, its event handlers
    ([handleClick], [handleReset], [handleSendMessage], [handleReact],
    [handleMatchReaction]), the status effect registered with [useEffect],
    the two helpers [calculateWinner] and [isCellWinning], and what the
    rendering functions ([renderCell], [renderBoard], [renderReactions])
    compute from the state.

    Modelling conventions.
    - A board slot holds a JS value: [null], one of the strings ['X'] and
      ['O'], or nothing at all (a hole of a sparse array, which reads as
      [undefined]).  Reading past the end of an array gives [undefined];
      writing past the end extends the array and leaves holes.
    - JS strings are sequences of UTF-16 code units ([list N]).
    - The object used as a dictionary ([reactions]) is a [gmap] of its own
      properties; reading a key that is not an own property goes through
      the prototype chain, so the names of [Object.prototype]'s members
      read as those members, whose text then takes the place of a count.
    - Counters are JS numbers (doubles) holding integers; they are modelled
      in [Z], and [+ 1] rounds as the double addition does: it is exact up
      to 2^53 and leaves 2^53 as it is.
    - One command is handled at a time: a handler runs on the state of the
      last render, and the status effect runs before the next command. *)

From Stdlib Require Import Ascii String NArith ZArith.
From stdpp Require Import base decidable option list strings gmap.

Open Scope Z_scope.
Open Scope nat_scope.

(** ** JS values and arrays *)

Inductive mark := markX | markO.

Inductive jsval :=
| undefined
| null
| str (m : mark).

#[global] Instance mark_eq_dec : EqDecision mark.
Proof. solve_decision. Defined.

#[global] Instance jsval_eq_dec : EqDecision jsval.
Proof. solve_decision. Defined.

(** ToBoolean: [undefined] and [null] are falsy, a non-empty string is truthy. *)
Definition truthy (v : jsval) : bool :=
  match v with
  | str _ => true
  | _ => false
  end.

(** [v === w] *)
Definition strict_eq (v w : jsval) : bool := bool_decide (v = w).

(** [sq[i]]: a hole is stored as [undefined], and so reads as it. *)
Definition get (sq : list jsval) (i : nat) : jsval := default undefined (sq !! i).

(** [sq[i] = v] on an array: in range the slot is replaced, out of range the
    array grows to length [i + 1] with holes in between. *)
Definition array_set (sq : list jsval) (i : nat) (v : jsval) : list jsval :=
  if decide (i < length sq) then <[i := v]> sq
  else sq ++ replicate (i - length sq) undefined ++ [v].

(** [sq.every(x => x)]: the callback is not called on holes. *)
Definition every_truthy (sq : list jsval) : bool :=
  forallb (λ v, bool_decide (v = undefined) || truthy v) sq.

(** ** JS strings *)

Definition jsstring := list N.

(** The code units of an ASCII literal. *)
Definition lit (s : string) : jsstring :=
  (λ c, N_of_ascii c) <$> list_ascii_of_string s.

Definition mark_string (m : mark) : jsstring :=
  match m with
  | markX => lit "X"
  | markO => lit "O"
  end.

(** ToString, as a template literal applies it. *)
Definition toString (v : jsval) : jsstring :=
  match v with
  | undefined => lit "undefined"
  | null => lit "null"
  | str m => mark_string m
  end.

(** WhiteSpace and LineTerminator code points of ECMAScript, the characters
    [String.prototype.trim] removes. *)
Definition isWhiteSpace (c : N) : bool :=
  bool_decide (c ∈ [9; 10; 11; 12; 13; 32; 160; 5760;
                    8192; 8193; 8194; 8195; 8196; 8197; 8198; 8199; 8200;
                    8201; 8202; 8232; 8233; 8239; 8287; 12288; 65279]%N).

Fixpoint trimStart (s : jsstring) : jsstring :=
  match s with
  | c :: s' => if isWhiteSpace c then trimStart s' else s
  | [] => []
  end.

Definition trimEnd (s : jsstring) : jsstring := reverse (trimStart (reverse s)).

Definition trim (s : jsstring) : jsstring := trimEnd (trimStart s).

(** ** Winner detection *)

Definition lines : list (nat * nat * nat) :=
  [ (0, 1, 2); (3, 4, 5); (6, 7, 8);
    (0, 3, 6); (1, 4, 7); (2, 5, 8);
    (0, 4, 8); (2, 4, 6) ].

(** The test of both loops: [sq[a] && sq[a] === sq[b] && sq[a] === sq[c]]. *)
Definition line_filled (sq : list jsval) (l : nat * nat * nat) : bool :=
  let '(a, b, c) := l in
  truthy (get sq a) && strict_eq (get sq a) (get sq b) && strict_eq (get sq a) (get sq c).

Fixpoint calculateWinner_loop (sq : list jsval) (ls : list (nat * nat * nat)) : jsval :=
  match ls with
  | [] => null
  | (a, b, c) :: ls' =>
      if line_filled sq (a, b, c) then get sq a else calculateWinner_loop sq ls'
  end.

Definition calculateWinner (sq : list jsval) : jsval := calculateWinner_loop sq lines.

(** [line.includes(idx)] *)
Definition includes (l : nat * nat * nat) (idx : nat) : bool :=
  let '(a, b, c) := l in bool_decide (idx ∈ [a; b; c]).

Fixpoint isCellWinning_loop (idx : nat) (sq : list jsval) (ls : list (nat * nat * nat)) : bool :=
  match ls with
  | [] => false
  | l :: ls' =>
      if line_filled sq l && includes l idx then true else isCellWinning_loop idx sq ls'
  end.

Definition isCellWinning (idx : nat) (sq : list jsval) : bool :=
  isCellWinning_loop idx sq lines.

(** ** Numbers *)

(** 2^53: up to it every integer is a double. *)
Definition two53 : Z := 9007199254740992.

(** The double nearest to the integer [x], ties going to the even
    significand (of 53 bits).  Integers beyond the largest double, which
    round to [Infinity], do not arise: the program only adds 1 to a double. *)
Definition round53 (x : Z) : Z :=
  let a := Z.abs x in
  if decide (a < two53)%Z then x
  else
    let e := (Z.log2 a - 52)%Z in
    let q := (a / 2 ^ e)%Z in
    let r := (a mod 2 ^ e)%Z in
    let half := (2 ^ (e - 1))%Z in
    let q' := if decide (r < half)%Z then q
              else if decide (half < r)%Z then (q + 1)%Z
              else if Z.even q then q else (q + 1)%Z in
    (Z.sgn x * (q' * 2 ^ e))%Z.

(** [n + 1] on numbers. *)
Definition number_succ (n : Z) : Z := round53 (n + 1).

(** ** Component state *)

(** What an own property of a [reactions] object holds: a number, or, once
    a key named like a member of [Object.prototype] has been used, a
    string: the text that member converts to, followed by [ones] characters
    "1".  Such a text is never empty. *)
Inductive rvalue :=
| r_num (n : Z)
| r_text (member : jsstring) (ones : nat).

#[global] Instance rvalue_eq_dec : EqDecision rvalue.
Proof. unfold jsstring. solve_decision. Defined.

Record Message := mkMessage {
  text : jsstring;
  reactions : gmap jsstring rvalue;
  matchReactions : Z
}.

Record AppState := mkApp {
  squares : list jsval;
  isXNext : bool;
  status : jsstring;
  winner : jsval;
  isDraw : bool;
  messages : list Message;
  chatInput : jsstring
}.

Definition setSquares (v : list jsval) (s : AppState) : AppState :=
  mkApp v (isXNext s) (status s) (winner s) (isDraw s) (messages s) (chatInput s).
Definition setIsXNext (v : bool) (s : AppState) : AppState :=
  mkApp (squares s) v (status s) (winner s) (isDraw s) (messages s) (chatInput s).
Definition setStatus (v : jsstring) (s : AppState) : AppState :=
  mkApp (squares s) (isXNext s) v (winner s) (isDraw s) (messages s) (chatInput s).
Definition setWinner (v : jsval) (s : AppState) : AppState :=
  mkApp (squares s) (isXNext s) (status s) v (isDraw s) (messages s) (chatInput s).
Definition setIsDraw (v : bool) (s : AppState) : AppState :=
  mkApp (squares s) (isXNext s) (status s) (winner s) v (messages s) (chatInput s).
Definition setMessages (f : list Message → list Message) (s : AppState) : AppState :=
  mkApp (squares s) (isXNext s) (status s) (winner s) (isDraw s) (f (messages s)) (chatInput s).
Definition setChatInput (v : jsstring) (s : AppState) : AppState :=
  mkApp (squares s) (isXNext s) (status s) (winner s) (isDraw s) (messages s) v.

(** [Array(9).fill(null)] *)
Definition initialState : list jsval := replicate 9 null.

(** The values the [useState] hooks start from. *)
Definition initialApp : AppState :=
  mkApp initialState true [] null false [] [].

(** ** The status effect *)

Definition useEffect_status (s : AppState) : AppState :=
  let win := calculateWinner (squares s) in
  if truthy win then
    setIsDraw false
      (setStatus (lit "Player " ++ (if strict_eq win (str markX) then lit "1" else lit "2")
                    ++ lit " (" ++ toString win ++ lit ") wins!")
         (setWinner win s))
  else if every_truthy (squares s) then
    setWinner null (setStatus (lit "It's a draw!") (setIsDraw true s))
  else
    setStatus (lit "Next: Player " ++ (if isXNext s then lit "1 (X)" else lit "2 (O)"))
      (setWinner null (setIsDraw false s)).

(** ** Board handlers *)

Definition handleClick (idx : nat) (s : AppState) : AppState :=
  if truthy (get (squares s) idx) || truthy (winner s) then s
  else
    let next := squares s in
    let next := array_set next idx (if isXNext s then str markX else str markO) in
    setIsXNext (negb (isXNext s)) (setSquares next s).

Definition handleReset (s : AppState) : AppState :=
  setIsDraw false (setWinner null (setStatus [] (setIsXNext true (setSquares initialState s)))).

(** ** Chat handlers *)

(** The reaction alphabet, as UTF-16 code units: grinning face, party popper,
    thumbs up, astonished face, red heart (with its variation selector). *)
Definition EMOJIS : list jsstring :=
  [ [0xD83D; 0xDE00]; [0xD83C; 0xDF89]; [0xD83D; 0xDC4D]; [0xD83D; 0xDE32];
    [0x2764; 0xFE0F] ]%N.

(** The trophy. *)
Definition MATCH_REACTION_ICON : jsstring := [0xD83C; 0xDFC6]%N.

(** What a handler call evaluates to. *)
Inductive retval :=
| ret_undefined
| ret_number (n : Z).

(** [handleSendMessage(e)]: reads the controlled input [chatInput];
    [e.preventDefault()] touches only the browser's event.  Both exits give
    no value, so the call evaluates to [undefined]. *)
Definition handleSendMessage (s : AppState) : AppState * retval :=
  let trimmed := trim (chatInput s) in
  if bool_decide (trimmed = []) then (s, ret_undefined)
  else
    (setChatInput []
       (setMessages (λ prev, prev ++ [mkMessage trimmed ∅ 0%Z]) s),
     ret_undefined).

(** The property names of [Object.prototype], which every object literal
    inherits. *)
Definition Object_prototype_names : list jsstring :=
  lit <$> [ "constructor"; "__defineGetter__"; "__defineSetter__";
            "hasOwnProperty"; "__lookupGetter__"; "__lookupSetter__";
            "isPrototypeOf"; "propertyIsEnumerable"; "toString"; "valueOf";
            "__proto__"; "toLocaleString" ].

(** What reading a property of a [reactions] object gives. *)
Inductive property_read :=
| read_undefined
| read_own (v : rvalue)
| read_inherited (member : jsstring).

(** [m.reactions[emoji]]: the own property, else the member inherited under
    that name, else [undefined]. *)
Definition reaction_read (m : Message) (emoji : jsstring) : property_read :=
  match reactions m !! emoji with
  | Some v => read_own v
  | None =>
      if bool_decide (emoji ∈ Object_prototype_names) then read_inherited emoji
      else read_undefined
  end.

(** [(r ? r : 0) + 1] for what was read ([m.reactions] itself is always an
    object, hence truthy).  A number is truthy unless it is 0; a text and an
    inherited member are truthy, and [+ 1] on them appends "1" to the text
    (of the member, for a member). *)
Definition reaction_next (r : property_read) : rvalue :=
  match r with
  | read_undefined => r_num (number_succ 0)
  | read_own (r_num n) => r_num (number_succ (if bool_decide (n ≠ 0%Z) then n else 0%Z))
  | read_own (r_text member ones) => r_text member (S ones)
  | read_inherited member => r_text member 1
  end.

Definition handleReact (idx : nat) (emoji : jsstring) (s : AppState) : AppState :=
  setMessages (λ msgs,
    imap (λ i m,
      if bool_decide (i = idx) then
        mkMessage (text m)
          (<[emoji := reaction_next (reaction_read m emoji)]> (reactions m))
          (matchReactions m)
      else m) msgs) s.

Definition handleMatchReaction (idx : nat) (s : AppState) : AppState :=
  setMessages (λ msgs,
    imap (λ i m,
      if bool_decide (i = idx) then
        mkMessage (text m) (reactions m)
          (if bool_decide (matchReactions m ≠ 0%Z) then number_succ (matchReactions m)
           else 1%Z)
      else m) msgs) s.

(** ** Commands and runs *)

(** The user intents the rendered tree dispatches: a click on a cell, the
    reset button, typing in the chat input ([onChange]), submitting the chat
    form, an emoji button, the trophy button. *)
Inductive command :=
| Click (idx : nat)
| Reset
| ChangeInput (value : jsstring)
| Send
| React (idx : nat) (emoji : jsstring)
| MatchReaction (idx : nat).

Definition handle (c : command) (s : AppState) : AppState :=
  match c with
  | Click idx => handleClick idx s
  | Reset => handleReset s
  | ChangeInput value => setChatInput value s
  | Send => fst (handleSendMessage s)
  | React idx emoji => handleReact idx emoji s
  | MatchReaction idx => handleMatchReaction idx s
  end.

(** A command, the render it causes, and the status effect after it. *)
Definition step (s : AppState) (c : command) : AppState :=
  useEffect_status (handle c s).

Definition run (s : AppState) (cs : list command) : AppState := foldl step s cs.

(** The state after the first render and its effect. *)
Definition mounted : AppState := useEffect_status initialApp.

(** ** Observations *)

Inductive Outcome :=
| InProgress
| Win (m : mark)
| Draw.

(** The outcome as the render reads it: [winner ? ... : isDraw ? ... : ...]. *)
Definition getOutcome (s : AppState) : Outcome :=
  match winner s with
  | str m => Win m
  | _ => if isDraw s then Draw else InProgress
  end.

(** The outcome the status effect derives from a board. *)
Definition outcome_of (sq : list jsval) : Outcome :=
  getOutcome (useEffect_status (setSquares sq initialApp)).

Definition count_mark (m : mark) (sq : list jsval) : nat :=
  length (filter (λ v, v = str m) sq).

(** Number of non-empty cells. *)
Definition count_filled (sq : list jsval) : nat :=
  length (filter (λ v, truthy v = true) sq).

(** Count of a symbol on a message: the number stored for it, an absent
    entry (and an entry that holds a text) counting as 0. *)
Definition reaction_count (m : Message) (emoji : jsstring) : Z :=
  match reactions m !! emoji with
  | Some (r_num n) => n
  | _ => 0%Z
  end.

(** The counts of one symbol, message by message. *)
Definition counts_of (emoji : jsstring) (s : AppState) : list Z :=
  (λ m, reaction_count m emoji) <$> messages s.

(** A board of nine cells, each [null], ['X'] or ['O']. *)
Definition board9 (sq : list jsval) : Prop :=
  length sq = 9 ∧ Forall (λ v, v ≠ undefined) sq.

(** Three identical non-empty cells on the line [l]. *)
Definition three_in_a_row (sq : list jsval) (l : nat * nat * nat) : Prop :=
  ∃ m, sq !! l.1.1 = Some (str m) ∧ sq !! l.1.2 = Some (str m) ∧ sq !! l.2 = Some (str m).

Definition all_occupied (sq : list jsval) : Prop :=
  ∀ i, i < 9 → ∃ m, sq !! i = Some (str m).

(** The winning line of the specification: the first line, in the order of
    [lines], whose three cells are non-empty and identical. *)
Definition recorded_winning_line (sq : list jsval) : option (nat * nat * nat) :=
  List.find (line_filled sq) lines.

(** The specification's [isCellInWinningLine]: the outcome is a win and the
    index is on the recorded line. *)
Definition isCellInWinningLine (idx : nat) (sq : list jsval) : bool :=
  match outcome_of sq, recorded_winning_line sq with
  | Win _, Some l => includes l idx
  | _, _ => false
  end.

(** ** Boards, runs and relations used in the statements *)

(** 1 where the property holds, 0 where it does not. *)
Definition indicator {A : Type} (P : A → Prop) `{!∀ x, Decision (P x)} (x : A) : nat :=
  if decide (P x) then 1 else 0.

(** The draw scenario of the specification: X O X / X O O / O X X. *)
Definition draw_board : list jsval :=
  [ str markX; str markO; str markX;
    str markX; str markO; str markO;
    str markO; str markX; str markX ].

(** A board reached by nine accepted moves on which the last move of X
    completes the top row and the left column at once. *)
Definition double_win_moves : list command :=
  [ Click 1; Click 4; Click 2; Click 5; Click 3; Click 7; Click 6; Click 8; Click 0 ].

Definition double_win_board : list jsval :=
  [ str markX; str markX; str markX;
    str markX; str markO; str markO;
    str markX; str markO; str markO ].

(** One message carrying the text "hi" and no reaction. *)
Definition one_message : AppState :=
  run mounted [ChangeInput (lit "hi"); Send].

Definition thumbs_up : jsstring := [0xD83D; 0xDC4D]%N.

Definition scenario_moves : list command :=
  [ Click 0; Click 4; Click 1; Click 5; Click 2 ].

(** The board the specification prints for the scenario: X,O,X,O,X,_,_,_,_. *)
Definition scenario_board_as_printed : list jsval :=
  [ str markX; str markO; str markX; str markO; str markX; null; null; null; null ].

Definition blank (s : jsstring) : Prop := Forall (λ c, isWhiteSpace c = true) s.

(** The invariant behind C5 and C10: the turn flag tells which of the two
    admissible count differences holds. *)
Definition turn_matches_counts (s : AppState) : Prop :=
  if isXNext s
  then count_mark markX (squares s) = count_mark markO (squares s)
  else count_mark markX (squares s) = S (count_mark markO (squares s)).

(** The same message, with counters that did not go down. *)
Definition msg_le (m m' : Message) : Prop :=
  text m' = text m ∧
  (∀ e, (reaction_count m e ≤ reaction_count m' e)%Z) ∧
  (matchReactions m ≤ matchReactions m')%Z.

Definition msg_nonneg (m : Message) : Prop :=
  (∀ e, (0 ≤ reaction_count m e)%Z) ∧ (0 ≤ matchReactions m)%Z.

Definition all_nonneg (s : AppState) : Prop :=
  ∀ i m, messages s !! i = Some m → msg_nonneg m.

(** ** Rendering *)

(** The keys of [COLORS]. *)
Inductive color := accent | primary | secondary | light | border.

(** The button [renderCell(idx)] returns, by its attributes that depend on
    the index or the state: [key], [style.color], [style.borderColor],
    [disabled], the text shown and the command of [onClick].  The class
    name, the test id and the [aria-label] text are left out. *)
Record CellButton := mkCellButton {
  cell_key : nat;
  cell_color : color;
  cell_borderColor : color;
  cell_disabled : bool;
  cell_content : jsval;
  cell_onClick : command
}.

Definition renderCell (idx : nat) (s : AppState) : CellButton :=
  mkCellButton idx
    (if strict_eq (get (squares s) idx) (str markX) then primary
     else if strict_eq (get (squares s) idx) (str markO) then accent
     else light)
    (if truthy (winner s) && isCellWinning idx (squares s) then accent else border)
    (truthy (get (squares s) idx) || truthy (winner s))
    (get (squares s) idx)
    (Click idx).

(** Three rows of three buttons. *)
Definition renderBoard (s : AppState) : list (list CellButton) :=
  (λ row, (λ col, renderCell (row * 3 + col) s) <$> [0; 1; 2]) <$> [0; 1; 2].

(** [disabled={!chatInput.trim()}] of the send button. *)
Definition sendButton_disabled (s : AppState) : bool :=
  bool_decide (trim (chatInput s) = []).

(** The counter shown beside the trophy: [msg.matchReactions > 0 && ...]. *)
Definition trophyBadge (msg : Message) : option Z :=
  if bool_decide (0 < matchReactions msg)%Z then Some (matchReactions msg) else None.

(** The counter shown beside an emoji: [msg.reactions[e] > 0 && ...]; a
    missing entry is [undefined], and [undefined > 0] is false, as is the
    comparison of a text or of an inherited member (neither is a numeral). *)
Definition emojiBadge (msg : Message) (e : jsstring) : option Z :=
  match reaction_read msg e with
  | read_own (r_num n) => if bool_decide (0 < n)%Z then Some n else None
  | _ => None
  end.

(** The buttons [renderReactions(msg, idx)] returns: the trophy first, then
    one per symbol of [EMOJIS]; each with its command and its counter. *)
Definition renderReactions (msg : Message) (idx : nat) : list (command * option Z) :=
  (MatchReaction idx, trophyBadge msg)
    :: ((λ e, (React idx e, emojiBadge msg e)) <$> EMOJIS).

(** The commands the rendering of a state offers: the clicks of the board's
    buttons, the reaction buttons of the messages of the log, and, always,
    the reset button, the input field and the form. *)
Definition offered (s : AppState) (c : command) : Prop :=
  match c with
  | Click _ => c ∈ cell_onClick <$> concat (renderBoard s)
  | React _ _ | MatchReaction _ =>
      ∃ i msg, messages s !! i = Some msg ∧ c ∈ (renderReactions msg i).*1
  | Reset | ChangeInput _ | Send => True
  end.

(** A run in which every command is offered by the state it is issued in. *)
Fixpoint ui_run (s : AppState) (cs : list command) : Prop :=
  match cs with
  | [] => True
  | c :: cs' => offered s c ∧ ui_run (step s c) cs'
  end.

(** ** More vocabulary of the statements *)

Definition is_reset (c : command) : bool :=
  match c with
  | Reset => true
  | _ => false
  end.

(** The commands of the board engine, as opposed to those of the chat. *)
Definition is_game_command (c : command) : bool :=
  match c with
  | Click _ | Reset => true
  | _ => false
  end.

(** The player who moved last, going by the turn flag. *)
Definition last_mover (s : AppState) : mark := if isXNext s then markO else markX.

#[global] Instance command_eq_dec : EqDecision command.
Proof. unfold jsstring. solve_decision. Defined.

(** How many times a command occurs in a sequence. *)
Definition occurrences (c : command) (cs : list command) : nat :=
  length (filter (λ c', c' = c) cs).

(** A state the status effect leaves as it is: what every render shows once
    the effect has run. *)
Definition rendered (s : AppState) : Prop := useEffect_status s = s.

(** Every line that is filled is filled with the mark of the last mover. *)
Definition lines_of_last_mover (s : AppState) : Prop :=
  ∀ l, l ∈ lines → line_filled (squares s) l = true →
       get (squares s) l.1.1 = str (last_mover s).

(** The three cells of the line [l] hold the mark [m]. *)
Definition sq_line_mark (sq : list jsval) (l : nat * nat * nat) (m : mark) : Prop :=
  sq !! l.1.1 = Some (str m) ∧ sq !! l.1.2 = Some (str m) ∧ sq !! l.2 = Some (str m).

(** A stored text: not empty, and trimming leaves it as it is. *)
Definition trimmed_text (m : Message) : Prop :=
  text m ≠ [] ∧ trim (text m) = text m.

(** The entries of a reaction object: symbols of the alphabet, each with a
    number, counted from 1. *)
Definition alphabet_entries (m : Message) : Prop :=
  ∀ e v, reactions m !! e = Some v → e ∈ EMOJIS ∧ ∃ n, v = r_num n ∧ (1 ≤ n)%Z.

(** [maxLength={200}] of the chat input: the values it hands to [onChange]. *)
Definition within_maxLength (c : command) : Prop :=
  match c with
  | ChangeInput value => length value ≤ 200
  | _ => True
  end.

(** The message [handleReact] builds for the selected index. *)
Definition react_once (emoji : jsstring) (m : Message) : Message :=
  mkMessage (text m)
    (<[emoji := reaction_next (reaction_read m emoji)]> (reactions m))
    (matchReactions m).

(** The message [handleMatchReaction] builds for the selected index. *)
Definition trophy_once (m : Message) : Message :=
  mkMessage (text m) (reactions m)
    (if bool_decide (matchReactions m ≠ 0%Z) then number_succ (matchReactions m) else 1%Z).

(** The symbol is used as a counter on the message: reading its key gives a
    number or [undefined], not a text and not an inherited member. *)
Definition counter_key (m : Message) (emoji : jsstring) : Prop :=
  match reaction_read m emoji with
  | read_undefined | read_own (r_num _) => True
  | _ => False
  end.

(** The counters of a message lie between 0 and 2^53. *)
Definition msg_bounded (m : Message) : Prop :=
  (0 ≤ matchReactions m ≤ two53)%Z ∧
  ∀ e n, reactions m !! e = Some (r_num n) → (0 ≤ n ≤ two53)%Z.

Definition all_bounded (s : AppState) : Prop :=
  ∀ i m, messages s !! i = Some m → msg_bounded m.

(** Texts are stored only under the names of [Object.prototype]'s members. *)
Definition texts_under_inherited_names (m : Message) : Prop :=
  ∀ e mb k, reactions m !! e = Some (r_text mb k) → e ∈ Object_prototype_names.

(** A log whose only message has its thumbs-up count and its trophy count
    at 2^53. *)
Definition saturated_log : AppState :=
  setMessages (λ _, [mkMessage (lit "hi") {[ thumbs_up := r_num two53 ]} two53]) mounted.

(** * Properties *)

(** ** Reading the board *)

Lemma get_str sq i m : get sq i = str m ↔ sq !! i = Some (str m).
Proof.
  unfold get. destruct (sq !! i) as [v|]; simpl; split; intros H; try congruence.
Qed.

Lemma truthy_str v : truthy v = true ↔ ∃ m, v = str m.
Proof.
  destruct v; simpl; split; try discriminate; eauto.
  all: intros [m' Hm]; discriminate.
Qed.

Lemma line_filled_iff sq l : line_filled sq l = true ↔ three_in_a_row sq l.
Proof.
  destruct l as [[a b] c]. unfold line_filled, three_in_a_row, strict_eq. simpl.
  rewrite !andb_true_iff, !bool_decide_eq_true, truthy_str. split.
  - intros [[[m Ha] Hb] Hc]. exists m. rewrite Ha in Hb, Hc.
    symmetry in Hb, Hc. by rewrite <- !get_str.
  - intros (m & Ha & Hb & Hc). apply get_str in Ha, Hb, Hc.
    rewrite Ha, Hb, Hc. eauto.
Qed.

Lemma calculateWinner_loop_won sq ls :
  truthy (calculateWinner_loop sq ls) = true ↔ ∃ l, l ∈ ls ∧ line_filled sq l = true.
Proof.
  induction ls as [|[[a b] c] ls IH]; cbn [calculateWinner_loop].
  - split; [discriminate | intros (l & Hl & _); inversion Hl].
  - destruct (line_filled sq (a, b, c)) eqn:E.
    + split; [intros _; exists (a, b, c); split; [left | done] |].
      intros _. unfold line_filled in E.
      by apply andb_true_iff in E as [[E _]%andb_true_iff _].
    + rewrite IH. split.
      * intros (l & Hl & Hw). exists l. split; [by right | done].
      * intros (l & Hl & Hw). apply elem_of_cons in Hl as [-> | Hl]; [congruence |].
        eauto.
Qed.

Lemma calculateWinner_loop_falsy sq ls :
  truthy (calculateWinner_loop sq ls) = false → calculateWinner_loop sq ls = null.
Proof.
  induction ls as [|[[a b] c] ls IH]; cbn [calculateWinner_loop]; [done |].
  destruct (line_filled sq (a, b, c)) eqn:E; [| done].
  intros Hf. unfold line_filled in E.
  apply andb_true_iff in E as [[E _]%andb_true_iff _]. congruence.
Qed.

Lemma calculateWinner_won sq :
  truthy (calculateWinner sq) = true ↔ ∃ l, l ∈ lines ∧ three_in_a_row sq l.
Proof.
  unfold calculateWinner. rewrite calculateWinner_loop_won.
  by setoid_rewrite line_filled_iff.
Qed.

Lemma every_truthy_board9 sq : board9 sq → every_truthy sq = true ↔ all_occupied sq.
Proof.
  intros [Hlen Hdef]. unfold every_truthy, all_occupied.
  rewrite forallb_forall. split.
  - intros H i Hi. destruct (lookup_lt_is_Some_2 sq i) as [v Hv]; [lia |].
    assert (Hin : In v sq) by (apply list_elem_of_In, list_elem_of_lookup; eauto).
    specialize (H v Hin). apply orb_true_iff in H as [H | H].
    + apply bool_decide_eq_true in H. rewrite Forall_forall in Hdef.
      exfalso. eapply Hdef; [| exact H]. by apply list_elem_of_In.
    + apply truthy_str in H as [m ->]. eauto.
  - intros H v Hin. apply list_elem_of_In, list_elem_of_lookup in Hin as [i Hi].
    destruct (H i) as [m Hm]; [apply lookup_lt_Some in Hi; lia |].
    rewrite Hi in Hm. injection Hm as ->. by rewrite orb_true_r.
Qed.

(** The effect looks at the board (and, for the text, the turn) only. *)
Lemma outcome_of_state s : getOutcome (useEffect_status s) = outcome_of (squares s).
Proof.
  unfold outcome_of, getOutcome, useEffect_status. simpl.
  destruct (truthy (calculateWinner (squares s))); [done |].
  by destruct (every_truthy (squares s)).
Qed.

Lemma outcome_of_cases sq :
  outcome_of sq =
    match calculateWinner sq with
    | str m => Win m
    | _ => if every_truthy sq then Draw else InProgress
    end.
Proof.
  unfold outcome_of, getOutcome, useEffect_status. simpl.
  destruct (truthy (calculateWinner sq)) eqn:E.
  - apply truthy_str in E as [m ->]. done.
  - apply calculateWinner_loop_falsy in E. unfold calculateWinner. rewrite E.
    by destruct (every_truthy sq).
Qed.

(** C1. For a board of nine cells, the outcome the status effect derives is
    a win iff one of the eight lines holds three identical non-empty cells,
    a draw iff all nine cells are occupied and no line is won, and in
    progress otherwise. *)
Theorem outcome_characterisation (s : AppState) :
  board9 (squares s) →
  let o := getOutcome (useEffect_status s) in
  let won := ∃ l, l ∈ lines ∧ three_in_a_row (squares s) l in
  ((∃ m, o = Win m) ↔ won) ∧
  (o = Draw ↔ all_occupied (squares s) ∧ ¬ won) ∧
  (o = InProgress ↔ ¬ all_occupied (squares s) ∧ ¬ won).
Proof.
  intros Hb o won. subst o won. rewrite outcome_of_state, outcome_of_cases.
  rewrite <- calculateWinner_won, <- (every_truthy_board9 _ Hb).
  destruct (calculateWinner (squares s)) as [| |m] eqn:Ew; simpl;
    destruct (every_truthy (squares s)); simpl;
    repeat split; try discriminate; try tauto; eauto;
    try (intros [m' Hm]; discriminate); try (intros [? ?]; congruence).
Qed.

Lemma draw_board_board9 : board9 draw_board.
Proof. split; [reflexivity | repeat constructor; discriminate]. Qed.

Example draw_board_is_draw : outcome_of draw_board = Draw.
Proof. vm_compute. reflexivity. Qed.

Lemma outcome_characterisation_witness :
  let s := setSquares draw_board initialApp in
  board9 (squares s) ∧
  (getOutcome (useEffect_status s) = Draw ↔
     all_occupied (squares s) ∧ ¬ ∃ l, l ∈ lines ∧ three_in_a_row (squares s) l).
Proof.
  split; [exact draw_board_board9 |].
  apply (outcome_characterisation (setSquares draw_board initialApp)).
  exact draw_board_board9.
Defined.

(** ** Highlighting *)

Lemma includes_iff l idx : includes l idx = true ↔ idx ∈ [l.1.1; l.1.2; l.2].
Proof. destruct l as [[a b] c]. unfold includes. by rewrite bool_decide_eq_true. Qed.

Lemma isCellWinning_loop_iff idx sq ls :
  isCellWinning_loop idx sq ls = true ↔
  ∃ l, l ∈ ls ∧ line_filled sq l = true ∧ includes l idx = true.
Proof.
  induction ls as [|l0 ls IH]; cbn [isCellWinning_loop].
  - split; [discriminate | intros (l & Hl & _); inversion Hl].
  - destruct (line_filled sq l0 && includes l0 idx) eqn:E.
    + apply andb_true_iff in E as [E1 E2].
      split; [intros _; exists l0; repeat split; [left | done | done] | done].
    + rewrite IH. split.
      * intros (l & Hl & Hw). exists l. split; [by right | done].
      * intros (l & Hl & Hf & Hi). apply elem_of_cons in Hl as [-> | Hl].
        -- rewrite Hf, Hi in E. discriminate.
        -- eauto.
Qed.

Lemma recorded_winning_line_Some sq l :
  recorded_winning_line sq = Some l → l ∈ lines ∧ line_filled sq l = true.
Proof.
  unfold recorded_winning_line. intros H. apply find_some in H as [Hin Hf].
  split; [by apply list_elem_of_In | done].
Qed.

Lemma recorded_winning_line_exists sq l :
  l ∈ lines → line_filled sq l = true → ∃ l0, recorded_winning_line sq = Some l0.
Proof.
  intros Hin Hf. unfold recorded_winning_line.
  destruct (find (line_filled sq) lines) as [l0|] eqn:E; [eauto |].
  rewrite (find_none _ _ E l) in Hf; [discriminate |]. by apply list_elem_of_In.
Qed.

Lemma outcome_of_won sq :
  (∃ m, outcome_of sq = Win m) ↔ ∃ l, l ∈ lines ∧ line_filled sq l = true.
Proof.
  rewrite outcome_of_cases. unfold calculateWinner.
  rewrite <- calculateWinner_loop_won.
  destruct (calculateWinner_loop sq lines) eqn:E; simpl.
  1,2: destruct (every_truthy sq); split; try discriminate; intros [m Hm]; discriminate.
  split; eauto.
Qed.

(** C2, as stated, fails: on a board where X holds both the top row and the
    left column, cell 3 is highlighted although it is not on the first
    winning line (0, 1, 2). *)
Lemma isCellWinning_beyond_first_line :
  squares (run mounted double_win_moves) = double_win_board ∧
  outcome_of double_win_board = Win markX ∧
  recorded_winning_line double_win_board = Some (0, 1, 2) ∧
  isCellInWinningLine 3 double_win_board = false ∧
  isCellWinning 3 double_win_board = true.
Proof. repeat split; vm_compute; reflexivity. Qed.

(** C2, amended. [isCellWinning] is true iff the index lies on some line
    whose three cells are non-empty and identical (any such line, not only
    the first in enumeration order); the outcome is then a win; every cell
    of the first winning line is highlighted; and when at most one line is
    won, the highlighted cells are exactly those of the first winning line. *)
Theorem isCellWinning_any_line (idx : nat) (sq : list jsval) :
  (isCellWinning idx sq = true ↔
     ∃ l, l ∈ lines ∧ three_in_a_row sq l ∧ idx ∈ [l.1.1; l.1.2; l.2]) ∧
  (isCellWinning idx sq = true → ∃ m, outcome_of sq = Win m) ∧
  (isCellInWinningLine idx sq = true → isCellWinning idx sq = true) ∧
  ((∀ l l', l ∈ lines → l' ∈ lines →
      three_in_a_row sq l → three_in_a_row sq l' → l = l') →
   isCellWinning idx sq = isCellInWinningLine idx sq).
Proof.
  assert (Hspec : isCellInWinningLine idx sq = true →
                  ∃ l, recorded_winning_line sq = Some l ∧ includes l idx = true).
  { unfold isCellInWinningLine. destruct (outcome_of sq); try discriminate.
    destruct (recorded_winning_line sq) as [l|]; [eauto | discriminate]. }
  assert (Hsub : isCellInWinningLine idx sq = true → isCellWinning idx sq = true).
  { intros (l & Hl & Hi)%Hspec. apply recorded_winning_line_Some in Hl as [Hin Hf].
    apply isCellWinning_loop_iff. eauto. }
  repeat split.
  - intros (l & Hin & Hf & Hi)%isCellWinning_loop_iff.
    exists l. by rewrite <- line_filled_iff, <- includes_iff.
  - intros (l & Hin & Hf & Hi). apply isCellWinning_loop_iff.
    exists l. by rewrite line_filled_iff, includes_iff.
  - intros (l & Hin & Hf & Hi)%isCellWinning_loop_iff.
    apply outcome_of_won. eauto.
  - exact Hsub.
  - intros Huniq. destruct (isCellInWinningLine idx sq) eqn:Es; [by apply Hsub |].
    destruct (isCellWinning idx sq) eqn:Ec; [| done].
    apply isCellWinning_loop_iff in Ec as (l & Hin & Hf & Hi).
    destruct (recorded_winning_line_exists sq l Hin Hf) as [l0 Hl0].
    destruct (proj2 (outcome_of_won sq)) as [m Hm]; [eauto |].
    pose proof (recorded_winning_line_Some _ _ Hl0) as [Hin0 Hf0].
    assert (l = l0) as -> by (apply Huniq; by rewrite <- ?line_filled_iff).
    unfold isCellInWinningLine in Es. rewrite Hm, Hl0 in Es. congruence.
Qed.

(** ** Reactions *)

(** Adding 1 is exact as long as the result does not pass 2^53. *)
Lemma round53_exact x : (- two53 ≤ x ≤ two53)%Z → round53 x = x.
Proof.
  intros Hx. unfold round53. destruct (decide (Z.abs x < two53)%Z) as [| Hge]; [done |].
  assert (x = two53 ∨ x = (- two53)%Z) as [-> | ->] by (unfold two53 in *; lia);
    vm_compute; reflexivity.
Qed.

Lemma number_succ_exact n : (- two53 ≤ n < two53)%Z → number_succ n = (n + 1)%Z.
Proof. intros Hn. unfold number_succ. apply round53_exact. unfold two53 in *. lia. Qed.

(** At 2^53 it adds nothing: 2^53 + 1 is no double, and the tie goes to 2^53. *)
Lemma number_succ_two53 : number_succ two53 = two53.
Proof. vm_compute. reflexivity. Qed.

Lemma number_succ_bounded n :
  (0 ≤ n ≤ two53)%Z → (n ≤ number_succ n ≤ two53)%Z ∧ (1 ≤ number_succ n)%Z.
Proof.
  intros Hn. destruct (decide (n = two53)) as [-> | Hne].
  - rewrite number_succ_two53. unfold two53. lia.
  - rewrite number_succ_exact by (unfold two53 in *; lia). unfold two53 in *. lia.
Qed.

Lemma truthy_or_zero n : (if bool_decide (n ≠ 0%Z) then n else 0%Z) = n.
Proof. case_bool_decide; [done |]. destruct (decide (n = 0%Z)); congruence. Qed.

(** On a key used as a counter, [handleReact] stores the successor of the count. *)
Lemma reaction_next_counter m emoji :
  counter_key m emoji →
  reaction_next (reaction_read m emoji) = r_num (number_succ (reaction_count m emoji)).
Proof.
  unfold counter_key, reaction_read, reaction_count.
  destruct (reactions m !! emoji) as [[n | mb k] |]; simpl; try done.
  - by rewrite truthy_or_zero.
  - by case_bool_decide.
Qed.

(** A symbol that does not name a member of [Object.prototype] is used as
    a counter unless its entry holds a text. *)
Lemma counter_key_iff m emoji :
  counter_key m emoji ↔
  (∀ mb k, reactions m !! emoji ≠ Some (r_text mb k)) ∧
  (reactions m !! emoji = None → emoji ∉ Object_prototype_names).
Proof.
  unfold counter_key, reaction_read.
  destruct (reactions m !! emoji) as [[n | mb k] |]; simpl.
  - split; [intros _; split; [discriminate | discriminate] | done].
  - split; [done | intros [H _]; by destruct (H mb k)].
  - case_bool_decide as Hin.
    + split; [done |]. intros [_ H]. by destruct (H eq_refl).
    + split; [| done]. intros _. split; [discriminate | done].
Qed.

Lemma EMOJIS_not_inherited emoji : emoji ∈ EMOJIS → emoji ∉ Object_prototype_names.
Proof.
  intros He Hin. revert He. vm_compute in Hin. unfold EMOJIS.
  repeat (apply elem_of_cons in Hin as [-> | Hin];
          [intros He; repeat (apply elem_of_cons in He as [He | He]; [discriminate |]);
           inversion He |]).
  inversion Hin.
Qed.

(** An index-selective [map] leaves a list alone when the index is past its end. *)
Lemma imap_select_ge {A} (g : A → A) (idx : nat) (l : list A) :
  length l ≤ idx → imap (λ i m, if bool_decide (i = idx) then g m else m) l = l.
Proof.
  intros Hge. apply list_eq. intros i. rewrite list_lookup_imap.
  destruct (l !! i) as [m|] eqn:E; simpl; [| done].
  apply lookup_lt_Some in E. case_bool_decide; [lia | done].
Qed.

Lemma imap_select_ne {A} (g : A → A) (idx j : nat) (l : list A) :
  j ≠ idx → imap (λ i m, if bool_decide (i = idx) then g m else m) l !! j = l !! j.
Proof.
  intros Hne. rewrite list_lookup_imap. destruct (l !! j); simpl; [| done].
  by case_bool_decide.
Qed.

Lemma imap_select_eq {A} (g : A → A) (idx : nat) (l : list A) :
  imap (λ i m, if bool_decide (i = idx) then g m else m) l !! idx = g <$> l !! idx.
Proof.
  rewrite list_lookup_imap. destruct (l !! idx); simpl; [| done].
  by case_bool_decide.
Qed.

(** C3, as stated, fails: a symbol outside the alphabet is not rejected.
    Reacting with "x" to message 0 stores a count of 1 for "x". *)
Lemma handleReact_outside_alphabet :
  (lit "x" ∉ EMOJIS) ∧
  counts_of (lit "x") one_message = [0%Z] ∧
  counts_of (lit "x") (handleReact 0 (lit "x") one_message) = [1%Z] ∧
  handleReact 0 (lit "x") one_message ≠ one_message.
Proof.
  assert (H1 : counts_of (lit "x") one_message = [0%Z])
    by (vm_compute; reflexivity).
  assert (H2 : counts_of (lit "x") (handleReact 0 (lit "x") one_message) = [1%Z])
    by (vm_compute; reflexivity).
  split; [| split; [exact H1 | split; [exact H2 |]]].
  - intros H. vm_compute in H.
    repeat (apply elem_of_cons in H as [H | H]; [discriminate |]).
    inversion H.
  - intros Heq. rewrite Heq, H1 in H2. discriminate.
Qed.

(** C3, amended. [handleReact] changes nothing when the message index is out
    of range.  Otherwise, for every symbol, in the alphabet or not, that is
    used as a counter on that message (its key reads as a number or as
    nothing: it holds no text and is not the name of a member of
    [Object.prototype]) and whose count is below 2^53, it adds exactly 1 to
    that symbol's count (an absent entry counting as 0).  For every symbol
    it leaves the other symbols' entries, the text and the trophy count of
    that message, all other messages, and the rest of the state as they
    were. *)
Theorem handleReact_spec (idx : nat) (emoji : jsstring) (s : AppState) :
  let s' := handleReact idx emoji s in
  (length (messages s) ≤ idx → s' = s) ∧
  (∀ m, messages s !! idx = Some m →
     ∃ m', messages s' !! idx = Some m' ∧
           (counter_key m emoji → (- two53 ≤ reaction_count m emoji < two53)%Z →
              reactions m' !! emoji = Some (r_num (reaction_count m emoji + 1)%Z) ∧
              reaction_count m' emoji = (reaction_count m emoji + 1)%Z) ∧
           (∀ e, e ≠ emoji → reactions m' !! e = reactions m !! e) ∧
           text m' = text m ∧ matchReactions m' = matchReactions m) ∧
  (∀ j, j ≠ idx → messages s' !! j = messages s !! j) ∧
  length (messages s') = length (messages s) ∧
  squares s' = squares s ∧ isXNext s' = isXNext s ∧ winner s' = winner s ∧
  isDraw s' = isDraw s ∧ status s' = status s ∧ chatInput s' = chatInput s.
Proof.
  unfold handleReact, setMessages. simpl.
  split; [| split; [| split; [| repeat split]]].
  - intros Hge. rewrite imap_select_ge by done. by destruct s.
  - intros m Hm. rewrite imap_select_eq, Hm. simpl. eexists. split; [done |].
    split; [| split; [| done]]; simpl.
    + intros Hkey Hrange.
      assert (Hnew : <[emoji := reaction_next (reaction_read m emoji)]> (reactions m)
                       !! emoji = Some (r_num (reaction_count m emoji + 1)%Z)).
      { rewrite lookup_insert_eq, reaction_next_counter by done.
        by rewrite number_succ_exact. }
      split; [exact Hnew |]. unfold reaction_count at 1. simpl. by rewrite Hnew.
    + intros e He. by rewrite lookup_insert_ne.
  - intros j Hj. by apply imap_select_ne.
  - by rewrite length_imap.
Qed.

Lemma handleReact_spec_witness :
  let m := default (mkMessage [] ∅ 0%Z) (messages one_message !! 0) in
  messages one_message !! 0 = Some m ∧
  counter_key m thumbs_up ∧ (- two53 ≤ reaction_count m thumbs_up < two53)%Z ∧
  ∃ m', messages (handleReact 0 thumbs_up one_message) !! 0 = Some m' ∧
        reaction_count m' thumbs_up = (reaction_count m thumbs_up + 1)%Z.
Proof.
  intros m.
  assert (Hm : messages one_message !! 0 = Some m) by (vm_compute; reflexivity).
  assert (Hk : counter_key m thumbs_up) by (vm_compute; exact I).
  assert (Hr : (- two53 ≤ reaction_count m thumbs_up < two53)%Z)
    by (vm_compute; split; [discriminate | reflexivity]).
  split; [exact Hm |]. split; [exact Hk |]. split; [exact Hr |].
  destruct (proj1 (proj2 (handleReact_spec 0 thumbs_up one_message)) m Hm)
    as (m' & Hm' & Hcount & _).
  exists m'. split; [exact Hm' |]. exact (proj2 (Hcount Hk Hr)).
Defined.

(** A symbol that names a member of [Object.prototype] reads as that member
    and a text is stored for it: no number, and the count of the symbol
    stays 0. *)
Example handleReact_constructor :
  reactions <$> messages (handleReact 0 (lit "constructor") one_message) =
    [ {[ lit "constructor" := r_text (lit "constructor") 1 ]} ] ∧
  counts_of (lit "constructor") (handleReact 0 (lit "constructor") one_message) = [0%Z] ∧
  reactions <$> messages (run one_message [React 0 (lit "constructor");
                                          React 0 (lit "constructor")]) =
    [ {[ lit "constructor" := r_text (lit "constructor") 2 ]} ].
Proof. repeat split; vm_compute; reflexivity. Qed.

(** ** Rejected moves *)

Lemma useEffect_status_squares s : squares (useEffect_status s) = squares s.
Proof.
  unfold useEffect_status.
  destruct (truthy (calculateWinner (squares s))); [done |].
  by destruct (every_truthy (squares s)).
Qed.

Lemma useEffect_status_isXNext s : isXNext (useEffect_status s) = isXNext s.
Proof.
  unfold useEffect_status.
  destruct (truthy (calculateWinner (squares s))); [done |].
  by destruct (every_truthy (squares s)).
Qed.

Lemma useEffect_status_messages s : messages (useEffect_status s) = messages s.
Proof.
  unfold useEffect_status.
  destruct (truthy (calculateWinner (squares s))); [done |].
  by destruct (every_truthy (squares s)).
Qed.

Lemma useEffect_status_chatInput s : chatInput (useEffect_status s) = chatInput s.
Proof.
  unfold useEffect_status.
  destruct (truthy (calculateWinner (squares s))); [done |].
  by destruct (every_truthy (squares s)).
Qed.

(** After the effect, the stored [winner] and [isDraw] are those of the board. *)
Lemma useEffect_status_winner s :
  winner (useEffect_status s) = calculateWinner (squares s).
Proof.
  unfold useEffect_status.
  destruct (truthy (calculateWinner (squares s))) eqn:E; [done |].
  apply calculateWinner_loop_falsy in E. unfold calculateWinner. rewrite E.
  by destruct (every_truthy (squares s)).
Qed.

Lemma useEffect_status_isDraw s :
  isDraw (useEffect_status s) =
  negb (truthy (calculateWinner (squares s))) && every_truthy (squares s).
Proof.
  unfold useEffect_status.
  destruct (truthy (calculateWinner (squares s))); [done |].
  by destruct (every_truthy (squares s)).
Qed.

(** Running the effect again changes nothing: it may be taken to run after
    every command, also one that left the board and the turn alone. *)
Lemma useEffect_status_idempotent s :
  useEffect_status (useEffect_status s) = useEffect_status s.
Proof.
  unfold useEffect_status at 1.
  rewrite useEffect_status_squares, useEffect_status_isXNext.
  unfold useEffect_status.
  destruct (truthy (calculateWinner (squares s))); [done |].
  by destruct (every_truthy (squares s)).
Qed.

(** A click past the end of the board is outside the handler's intended
    inputs (the grid dispatches 0..8); the array then grows, with holes. *)
Example handleClick_past_end :
  squares (handleClick 11 mounted) = initialState ++ [undefined; undefined; str markX].
Proof. vm_compute. reflexivity. Qed.

(** C4. In a rendered state (the status effect has run) with a board of nine
    cells, a click on a cell 0..8 that is already occupied, or made when the
    outcome is a win or a draw, returns the state as it was: the board and
    the turn are unchanged.  The handler is a total function of the state:
    it has no exceptional exit. *)
Theorem handleClick_rejected (idx : nat) (s0 : AppState) :
  let s := useEffect_status s0 in
  board9 (squares s0) → idx < 9 →
  truthy (get (squares s) idx) = true ∨ getOutcome s ≠ InProgress →
  handleClick idx s = s ∧
  squares (handleClick idx s) = squares s ∧ isXNext (handleClick idx s) = isXNext s.
Proof.
  intros s Hb Hidx H.
  assert (Hguard : truthy (get (squares s) idx) || truthy (winner s) = true).
  { destruct H as [H | H]; [by rewrite H |].
    unfold getOutcome in H. subst s.
    rewrite useEffect_status_squares, useEffect_status_winner, useEffect_status_isDraw in *.
    destruct (calculateWinner (squares s0)) eqn:Ew; simpl in *;
      [| | by rewrite orb_true_r].
    all: destruct (every_truthy (squares s0)) eqn:Ee; [| done].
    all: apply (every_truthy_board9 _ Hb) in Ee; destruct (Ee idx Hidx) as [m Hm].
    all: apply get_str in Hm; by rewrite Hm. }
  assert (Heq : handleClick idx s = s) by (unfold handleClick; by rewrite Hguard).
  by rewrite Heq.
Qed.

Lemma handleClick_rejected_witness :
  let s := useEffect_status (setSquares draw_board initialApp) in
  board9 draw_board ∧ 4 < 9 ∧
  (truthy (get (squares s) 4) = true ∨ getOutcome s ≠ InProgress) ∧
  handleClick 4 s = s.
Proof.
  split; [exact draw_board_board9 |]. split; [lia |].
  split; [left; vm_compute; reflexivity |].
  apply (handleClick_rejected 4 (setSquares draw_board initialApp));
    [exact draw_board_board9 | lia | left; vm_compute; reflexivity].
Defined.

(** ** Turn and mark counts *)

Section CountInsert.
Context {A : Type} (P : A → Prop) `{!∀ x, Decision (P x)}.

Lemma length_filter_cons x l :
  length (filter P (x :: l)) = indicator P x + length (filter P l).
Proof. rewrite filter_cons. unfold indicator. by destruct (decide (P x)). Qed.

Lemma length_filter_insert l i v old :
  l !! i = Some old →
  length (filter P (<[i := v]> l)) + indicator P old = length (filter P l) + indicator P v.
Proof.
  revert i. induction l as [|x l IH]; intros [|i] Hi; try discriminate; simpl in *.
  - injection Hi as ->. rewrite !length_filter_cons. lia.
  - rewrite !length_filter_cons. specialize (IH i Hi). lia.
Qed.

Lemma length_filter_snoc l v :
  length (filter P (l ++ [v])) = length (filter P l) + indicator P v.
Proof.
  rewrite filter_app, length_app, length_filter_cons, filter_nil. simpl. lia.
Qed.

Lemma length_filter_replicate_not n x :
  ¬ P x → length (filter P (replicate n x)) = 0.
Proof.
  intros Hx. induction n as [|n IH]; simpl; [done |].
  rewrite length_filter_cons, IH. unfold indicator. by destruct (decide (P x)).
Qed.
End CountInsert.

(** Writing a value into a falsy slot (or past the end) adds that value to a
    count and removes nothing from it, for any property falsy values lack. *)
Lemma count_array_set (P : jsval → Prop) `{!∀ x, Decision (P x)} sq idx v :
  ¬ P undefined → ¬ P null →
  truthy (get sq idx) = false →
  length (filter P (array_set sq idx v)) = length (filter P sq) + indicator P v.
Proof.
  intros Hu Hn Hfalsy. unfold array_set. destruct (decide (idx < length sq)) as [Hlt | Hge].
  - destruct (lookup_lt_is_Some_2 sq idx Hlt) as [old Hold].
    pose proof (length_filter_insert P sq idx v old Hold) as Hins.
    unfold get in Hfalsy. rewrite Hold in Hfalsy. simpl in Hfalsy.
    assert (indicator P old = 0) as Hz.
    { unfold indicator. destruct old; try discriminate; by destruct (decide _). }
    lia.
  - rewrite app_assoc, length_filter_snoc, filter_app, length_app.
    rewrite (length_filter_replicate_not P _ _ Hu). lia.
Qed.

Lemma count_filled_marks sq :
  count_filled sq = count_mark markX sq + count_mark markO sq.
Proof.
  unfold count_filled, count_mark. induction sq as [|v sq IH]; [done |].
  rewrite !length_filter_cons, IH. unfold indicator.
  destruct v as [| |[|]]; repeat (destruct (decide _)); simpl in *; try congruence; lia.
Qed.

Lemma handleClick_cases idx s :
  handleClick idx s = s ∨
  (truthy (get (squares s) idx) = false ∧
   squares (handleClick idx s) =
     array_set (squares s) idx (if isXNext s then str markX else str markO) ∧
   isXNext (handleClick idx s) = negb (isXNext s) ∧
   messages (handleClick idx s) = messages s).
Proof.
  unfold handleClick.
  destruct (truthy (get (squares s) idx)) eqn:E; [by left |].
  destruct (truthy (winner s)); [by left |]. right. done.
Qed.

Lemma handleClick_turn_matches_counts idx s :
  turn_matches_counts s → turn_matches_counts (handleClick idx s).
Proof.
  intros Hinv. destruct (handleClick_cases idx s) as [-> | (Hf & Hsq & Hx & _)]; [done |].
  unfold turn_matches_counts, count_mark in *. rewrite Hsq, Hx.
  rewrite !(count_array_set _ _ _ _) by (done || discriminate).
  unfold indicator.
  destruct (isXNext s); simpl; repeat (destruct (decide _)); try congruence; lia.
Qed.

Lemma handle_turn_matches_counts c s :
  turn_matches_counts s → turn_matches_counts (handle c s).
Proof.
  destruct c as [idx | | value | | idx emoji | idx]; cbn [handle].
  - apply handleClick_turn_matches_counts.
  - intros _. reflexivity.
  - done.
  - unfold handleSendMessage. by case_bool_decide.
  - done.
  - done.
Qed.

Lemma step_turn_matches_counts c s :
  turn_matches_counts s → turn_matches_counts (step s c).
Proof.
  intros H%(handle_turn_matches_counts c). unfold step, turn_matches_counts in *.
  by rewrite useEffect_status_squares, useEffect_status_isXNext.
Qed.

Lemma run_turn_matches_counts cs s :
  turn_matches_counts s → turn_matches_counts (run s cs).
Proof.
  revert s. induction cs as [|c cs IH]; intros s Hs; [done |].
  simpl. apply IH. by apply step_turn_matches_counts.
Qed.

Lemma mounted_turn_matches_counts : turn_matches_counts mounted.
Proof. vm_compute. reflexivity. Qed.

(** C5. After any sequence of commands from the mounted component, the
    number of X marks minus the number of O marks is 0 or 1: it is 0 exactly
    when X is to move and 1 exactly when O is to move, X moving first. *)
Theorem mark_count_difference (cs : list command) :
  let s := run mounted cs in
  let x := Z.of_nat (count_mark markX (squares s)) in
  let o := Z.of_nat (count_mark markO (squares s)) in
  ((x - o = 0)%Z ∨ (x - o = 1)%Z) ∧
  (isXNext s = true ↔ (x - o = 0)%Z) ∧
  (isXNext s = false ↔ (x - o = 1)%Z).
Proof.
  intros s x o. subst x o.
  pose proof (run_turn_matches_counts cs mounted mounted_turn_matches_counts) as H.
  fold s in H. unfold turn_matches_counts in H.
  destruct (isXNext s); repeat split; intros; try done; lia.
Qed.

(** C10. In every state reached from the mounted component by moves and
    resets (and chat commands), X is to move iff the number of non-empty
    cells of the board is even. *)
Theorem turn_is_board_parity (cs : list command) :
  let s := run mounted cs in
  isXNext s = true ↔ Nat.Even (count_filled (squares s)).
Proof.
  intros s.
  pose proof (run_turn_matches_counts cs mounted mounted_turn_matches_counts) as H.
  fold s in H. unfold turn_matches_counts in H.
  rewrite <- Nat.even_spec, count_filled_marks.
  destruct (isXNext s); rewrite H.
  - split; [intros _ | done]. rewrite Nat.even_add. by destruct (Nat.even _).
  - split; [done |]. rewrite Nat.even_add, Nat.even_succ, <- Nat.negb_even.
    by destruct (Nat.even _).
Qed.

(** ** The five-move scenario *)

(** C6, as stated, fails: the five moves do not produce the board
    X,O,X,O,X,_,_,_,_ (on which, besides, no line is won). *)
Lemma scenario_board_differs :
  squares (run mounted scenario_moves) ≠ scenario_board_as_printed ∧
  outcome_of scenario_board_as_printed = InProgress.
Proof.
  split; [| vm_compute; reflexivity].
  intros H. vm_compute in H. discriminate H.
Qed.

(** C6, amended. From the mounted component, moves at 0, 4, 1, 5, 2 put X on
    cells 0, 1, 2 and O on cells 4, 5: the board is X,X,X,_,O,O,_,_,_.  The
    game is in progress after the fourth move, and after the fifth the
    outcome is a win of X, the first winning line is (0, 1, 2), and exactly
    the cells 0, 1, 2 are highlighted. *)
Theorem scenario_row_win :
  let s := run mounted scenario_moves in
  squares s =
    [ str markX; str markX; str markX; null; str markO; str markO; null; null; null ] ∧
  getOutcome (run mounted (take 4 scenario_moves)) = InProgress ∧
  getOutcome s = Win markX ∧
  recorded_winning_line (squares s) = Some (0, 1, 2) ∧
  filter (λ i, isCellWinning i (squares s) = true) (seq 0 9) = [0; 1; 2] ∧
  isXNext s = false.
Proof. repeat split; vm_compute; reflexivity. Qed.

(** ** Reset *)

(** C9. Whatever the state, [handleReset] stores the empty board, gives the
    turn to X, clears the winner, the draw flag and the status, so that the
    outcome is in progress; it leaves the chat messages (texts, reaction
    counts, trophy counts) and the chat input as they were.  After the
    status effect the state is the mounted one, but for the chat. *)
Theorem handleReset_restores (s : AppState) :
  let s' := handleReset s in
  squares s' = replicate 9 null ∧ isXNext s' = true ∧
  winner s' = null ∧ isDraw s' = false ∧ status s' = [] ∧
  getOutcome s' = InProgress ∧ outcome_of (squares s') = InProgress ∧
  s' = setChatInput (chatInput s) (setMessages (λ _, messages s) initialApp) ∧
  messages s' = messages s ∧ chatInput s' = chatInput s ∧
  step s Reset = setChatInput (chatInput s) (setMessages (λ _, messages s) mounted).
Proof. repeat split. Qed.

(** ** Sending a message *)

Lemma trimStart_split s : ∃ pre, s = pre ++ trimStart s ∧ blank pre.
Proof.
  induction s as [|c s (pre & Hs & Hpre)]; simpl.
  - exists []. split; [done | constructor].
  - destruct (isWhiteSpace c) eqn:E.
    + exists (c :: pre). split; [simpl; congruence | by constructor].
    + exists []. split; [done | constructor].
Qed.

Lemma trimStart_head s c : head (trimStart s) = Some c → isWhiteSpace c = false.
Proof.
  induction s as [|c' s IH]; simpl; [discriminate |].
  destruct (isWhiteSpace c') eqn:E; [done |]. simpl. congruence.
Qed.

Lemma trimEnd_split s : ∃ suf, s = trimEnd s ++ suf ∧ blank suf.
Proof.
  destruct (trimStart_split (reverse s)) as (pre & Hs & Hpre).
  exists (reverse pre). split.
  - unfold trimEnd. rewrite <- reverse_app, <- Hs. by rewrite reverse_involutive.
  - unfold blank. by rewrite Forall_reverse.
Qed.

Lemma trimEnd_last s c : last (trimEnd s) = Some c → isWhiteSpace c = false.
Proof. unfold trimEnd. rewrite last_reverse. apply trimStart_head. Qed.

(** [trim] removes a blank prefix and a blank suffix, and what is left
    neither starts nor ends with a white space character. *)
Lemma trim_spec s :
  (∃ pre suf, s = pre ++ trim s ++ suf ∧ blank pre ∧ blank suf) ∧
  (∀ c, head (trim s) = Some c → isWhiteSpace c = false) ∧
  (∀ c, last (trim s) = Some c → isWhiteSpace c = false).
Proof.
  unfold trim. destruct (trimStart_split s) as (pre & Hs & Hpre).
  destruct (trimEnd_split (trimStart s)) as (suf & Ht & Hsuf).
  repeat split.
  - exists pre, suf. by rewrite <- Ht.
  - intros c Hc. apply (trimStart_head s). rewrite Ht.
    destruct (trimEnd (trimStart s)); [discriminate | done].
  - apply trimEnd_last.
Qed.

Example trim_hi : trim (lit "  hi  ") = lit "hi".
Proof. vm_compute. reflexivity. Qed.

Example send_blank_rejected :
  run one_message [ChangeInput (lit "   "); Send] =
  run one_message [ChangeInput (lit "   ")].
Proof. vm_compute. reflexivity. Qed.

(** C7, as stated, fails in its last part: the handler hands back no index.
    Submitting "  hi  " to the empty log stores "hi" at index 0, and the call
    evaluates to [undefined]. *)
Lemma handleSendMessage_returns_undefined :
  let s := setChatInput (lit "  hi  ") mounted in
  text <$> messages (handleSendMessage s).1 = [lit "hi"] ∧
  (handleSendMessage s).2 = ret_undefined ∧
  (handleSendMessage s).2 ≠ ret_number (Z.of_nat (length (messages s))).
Proof.
  split; [vm_compute; reflexivity |].
  split; [vm_compute; reflexivity |].
  intros H. vm_compute in H. discriminate H.
Qed.

(** C7, amended. [handleSendMessage] trims the input text.  If nothing is
    left the state, and so the log, is unchanged.  Otherwise exactly one
    message is appended: it carries the trimmed text, no reaction and a zero
    trophy count, and its index is the previous length of the log; the input
    field is cleared and the board state is untouched.  The call itself
    yields no value. *)
Theorem handleSendMessage_spec (s : AppState) :
  let t := trim (chatInput s) in
  let s' := (handleSendMessage s).1 in
  (handleSendMessage s).2 = ret_undefined ∧
  (t = [] → s' = s) ∧
  (t ≠ [] →
     messages s' = messages s ++ [mkMessage t ∅ 0%Z] ∧
     messages s' !! length (messages s) = Some (mkMessage t ∅ 0%Z) ∧
     length (messages s') = S (length (messages s)) ∧
     chatInput s' = []) ∧
  squares s' = squares s ∧ isXNext s' = isXNext s ∧ winner s' = winner s ∧
  isDraw s' = isDraw s ∧ status s' = status s ∧
  (∃ pre suf, chatInput s = pre ++ t ++ suf ∧ blank pre ∧ blank suf) ∧
  (∀ c, head t = Some c → isWhiteSpace c = false) ∧
  (∀ c, last t = Some c → isWhiteSpace c = false).
Proof.
  intros t s'. subst s'. unfold handleSendMessage. fold t.
  pose proof (trim_spec (chatInput s)) as (Hsplit & Hhead & Hlast). fold t in Hsplit, Hhead, Hlast.
  case_bool_decide as Ht; simpl.
  - repeat split; try done.
  - repeat split; try done.
    + rewrite lookup_app_r by done. by rewrite Nat.sub_diag.
    + rewrite length_app. simpl. lia.
Qed.

(** ** Monotone counters *)

Lemma msg_le_refl m : msg_le m m.
Proof. repeat split; intros; lia. Qed.

Lemma msg_le_trans m1 m2 m3 : msg_le m1 m2 → msg_le m2 m3 → msg_le m1 m3.
Proof.
  intros (Ht1 & Hr1 & Hm1) (Ht2 & Hr2 & Hm2). repeat split.
  - congruence.
  - intros e. specialize (Hr1 e). specialize (Hr2 e). lia.
  - lia.
Qed.

Lemma msg_le_nonneg m m' : msg_le m m' → msg_nonneg m → msg_nonneg m'.
Proof.
  intros (_ & Hr & Hm) (Hr0 & Hm0). split; [| lia].
  intros e. specialize (Hr e). specialize (Hr0 e). lia.
Qed.

Lemma msg_bounded_nonneg m : msg_bounded m → msg_nonneg m.
Proof.
  intros [Hz Hr]. split; [| lia]. intros e. unfold reaction_count.
  destruct (reactions m !! e) as [[n | mb k] |] eqn:E; try done.
  destruct (Hr e n E). done.
Qed.

(** What [handleReact] stores is a text or a number between 1 and 2^53,
    and as a count it is not less than the count before. *)
Lemma reaction_next_bounded m emoji :
  msg_bounded m →
  match reaction_next (reaction_read m emoji) with
  | r_num n => (1 ≤ n ≤ two53)%Z ∧ (reaction_count m emoji ≤ n)%Z
  | r_text _ _ => reaction_count m emoji = 0%Z
  end.
Proof.
  intros [_ Hr]. unfold reaction_read, reaction_count.
  destruct (reactions m !! emoji) as [[n | mb k] |] eqn:E; simpl; try done.
  - rewrite truthy_or_zero. pose proof (number_succ_bounded n (Hr _ _ E)). lia.
  - case_bool_decide; simpl; [done |]. vm_compute. repeat split; discriminate.
Qed.

Lemma react_msg_le m emoji :
  msg_bounded m →
  msg_le m (react_once emoji m) ∧ msg_bounded (react_once emoji m).
Proof.
  intros Hb. pose proof (reaction_next_bounded m emoji Hb) as Hnext.
  destruct Hb as [Hz Hr]. unfold react_once. split.
  - split; [done |]. split; [| simpl; lia]. intros e.
    unfold reaction_count at 2. simpl.
    destruct (decide (e = emoji)) as [-> | Hne].
    + rewrite lookup_insert_eq.
      destruct (reaction_next (reaction_read m emoji)); [lia |]. by rewrite Hnext.
    + rewrite lookup_insert_ne by done. unfold reaction_count. lia.
  - split; [done |]. simpl. intros e n.
    destruct (decide (e = emoji)) as [-> | Hne].
    + rewrite lookup_insert_eq. intros Hn.
      destruct (reaction_next (reaction_read m emoji)); [| discriminate].
      injection Hn as ->. lia.
    + rewrite lookup_insert_ne by done. apply Hr.
Qed.

Lemma match_reaction_msg_le m :
  msg_bounded m →
  msg_le m (trophy_once m) ∧ msg_bounded (trophy_once m).
Proof.
  intros [Hz Hr]. unfold trophy_once.
  assert (Hnew : (matchReactions m ≤
                    (if bool_decide (matchReactions m ≠ 0%Z)
                     then number_succ (matchReactions m) else 1%Z) ≤ two53)%Z).
  { case_bool_decide as Hne.
    - pose proof (number_succ_bounded _ Hz). lia.
    - unfold two53 in *. destruct (decide (matchReactions m = 0%Z)); [lia | by destruct Hne]. }
  split.
  - split; [done |]. split; [intros e; unfold reaction_count; simpl; lia |].
    simpl. lia.
  - split; [simpl; lia | exact Hr].
Qed.

(** Where each message of the next state comes from: the message at the
    same index, not decreased, or the message just submitted. *)
Lemma handle_messages_origin c s i m' :
  all_bounded s →
  messages (handle c s) !! i = Some m' →
  (∃ m, messages s !! i = Some m ∧ msg_le m m' ∧ msg_bounded m') ∨
  (messages s !! i = None ∧ reactions m' = ∅ ∧ matchReactions m' = 0%Z).
Proof.
  intros Hall.
  assert (Hsame : messages s !! i = Some m' →
            (∃ m, messages s !! i = Some m ∧ msg_le m m' ∧ msg_bounded m') ∨
            (messages s !! i = None ∧ reactions m' = ∅ ∧ matchReactions m' = 0%Z)).
  { intros H. left. exists m'. eauto using msg_le_refl. }
  destruct c as [idx | | value | | idx emoji | idx]; cbn [handle]; try exact Hsame.
  - by destruct (handleClick_cases idx s) as [-> | (_ & _ & _ & ->)].
  - unfold handleSendMessage. case_bool_decide; simpl; [exact Hsame |].
    intros H'. destruct (messages s !! i) as [m|] eqn:E.
    + rewrite (lookup_app_l_Some _ _ _ _ E) in H'. by apply Hsame.
    + right. split; [done |]. apply lookup_ge_None in E.
      rewrite lookup_app_r in H' by done.
      destruct (i - length (messages s)) as [|k]; simpl in H'; [| done].
      by injection H' as <-.
  - unfold handleReact. simpl. intros (m & Hm & ->)%list_lookup_imap_Some.
    left. exists m. split; [done |]. pose proof (Hall i m Hm) as Hb.
    case_bool_decide; [by apply react_msg_le | eauto using msg_le_refl].
  - unfold handleMatchReaction. simpl. intros (m & Hm & ->)%list_lookup_imap_Some.
    left. exists m. split; [done |]. pose proof (Hall i m Hm) as Hb.
    case_bool_decide; [by apply match_reaction_msg_le | eauto using msg_le_refl].
Qed.

(** No command removes a message or lowers one of its counters. *)
Lemma handle_messages_mono c s i m :
  all_bounded s →
  messages s !! i = Some m → ∃ m', messages (handle c s) !! i = Some m' ∧ msg_le m m'.
Proof.
  intros Hall Hm.
  assert (Hlen : length (messages s) ≤ length (messages (handle c s))).
  { destruct c as [idx | | value | | idx emoji | idx]; cbn [handle]; try done.
    - destruct (handleClick_cases idx s) as [-> | (_ & _ & _ & ->)]; done.
    - unfold handleSendMessage. case_bool_decide; simpl; [done |].
      rewrite length_app. lia.
    - unfold handleReact. simpl. by rewrite length_imap.
    - unfold handleMatchReaction. simpl. by rewrite length_imap. }
  destruct (lookup_lt_is_Some_2 (messages (handle c s)) i) as [m' Hm'].
  { apply lookup_lt_Some in Hm. lia. }
  exists m'. split; [done |].
  destruct (handle_messages_origin c s i m' Hall Hm')
    as [(m0 & Hm0 & Hle & _) | (Hnone & _)]; congruence.
Qed.

Lemma step_messages c s : messages (step s c) = messages (handle c s).
Proof. apply useEffect_status_messages. Qed.

Lemma step_all_bounded c s : all_bounded s → all_bounded (step s c).
Proof.
  intros Hall i m'. rewrite step_messages. intros Hm'.
  destruct (handle_messages_origin c s i m' Hall Hm')
    as [(m & Hm & Hle & Hb) | (_ & Hr & Hz)]; [done |].
  split; [rewrite Hz; unfold two53; lia |]. intros e n. by rewrite Hr, lookup_empty.
Qed.

Lemma run_all_bounded cs s : all_bounded s → all_bounded (run s cs).
Proof.
  revert s. induction cs as [|c cs IH]; intros s Hs; [done |].
  simpl. by apply IH, step_all_bounded.
Qed.

Lemma run_messages_mono cs s i m :
  all_bounded s →
  messages s !! i = Some m → ∃ m', messages (run s cs) !! i = Some m' ∧ msg_le m m'.
Proof.
  revert s m. induction cs as [|c cs IH]; intros s m Hall Hm; simpl.
  - eauto using msg_le_refl.
  - destruct (handle_messages_mono c s i m Hall Hm) as (m1 & Hm1 & Hle1).
    rewrite <- step_messages in Hm1.
    destruct (IH _ _ (step_all_bounded c s Hall) Hm1) as (m2 & Hm2 & Hle2).
    eauto using msg_le_trans.
Qed.

Lemma mounted_all_bounded : all_bounded mounted.
Proof. intros i m H. destruct i; discriminate. Qed.

Lemma run_all_nonneg cs : all_nonneg (run mounted cs).
Proof.
  intros i m Hm. apply msg_bounded_nonneg.
  by apply (run_all_bounded cs mounted mounted_all_bounded i).
Qed.

(** C8. Along any sequence of commands from the mounted component, every
    message present in a state is still present, at the same index and with
    the same text, in every later state; each of its reaction counts and
    its trophy count is at least what it was, and none is negative. *)
Theorem counts_monotone (cs1 cs2 : list command) (i : nat) (m : Message) :
  let s := run mounted cs1 in
  let s' := run s cs2 in
  messages s !! i = Some m →
  ((∀ e, (0 ≤ reaction_count m e)%Z) ∧ (0 ≤ matchReactions m)%Z) ∧
  ∃ m', messages s' !! i = Some m' ∧
        text m' = text m ∧
        (∀ e, (reaction_count m e ≤ reaction_count m' e)%Z) ∧
        (matchReactions m ≤ matchReactions m')%Z ∧
        (∀ e, (0 ≤ reaction_count m' e)%Z) ∧ (0 ≤ matchReactions m')%Z.
Proof.
  intros s s' Hm.
  pose proof (run_all_bounded cs1 mounted mounted_all_bounded) as Hall. fold s in Hall.
  pose proof (run_all_nonneg cs1) as Hnn. fold s in Hnn.
  pose proof (Hnn i m Hm) as Hm0. split; [exact Hm0 |].
  destruct (run_messages_mono cs2 s i m Hall Hm) as (m' & Hm' & Hle).
  exists m'. split; [exact Hm' |].
  destruct (msg_le_nonneg _ _ Hle Hm0) as [Hr' Hz'].
  destruct Hle as (Ht & Hr & Hz). done.
Qed.

(** Two thumbs up on the same message count 2, and the other symbols stay at 0. *)
Example two_thumbs_up :
  let s := run one_message [React 0 thumbs_up; React 0 thumbs_up] in
  (λ e, counts_of e s) <$> EMOJIS = [[0]; [0]; [2]; [0]; [0]]%Z.
Proof. vm_compute. reflexivity. Qed.

Lemma counts_monotone_witness :
  let cs1 := [ChangeInput (lit "hi"); Send; React 0 thumbs_up] in
  let cs2 := [React 0 thumbs_up; MatchReaction 0] in
  let m := default (mkMessage [] ∅ 0%Z) (messages (run mounted cs1) !! 0) in
  messages (run mounted cs1) !! 0 = Some m ∧
  ∃ m', messages (run (run mounted cs1) cs2) !! 0 = Some m' ∧
        (reaction_count m thumbs_up ≤ reaction_count m' thumbs_up)%Z.
Proof.
  intros cs1 cs2 m. assert (Hm : messages (run mounted cs1) !! 0 = Some m)
    by (vm_compute; reflexivity).
  split; [exact Hm |].
  destruct (counts_monotone cs1 cs2 0 m Hm) as (_ & m' & Hm' & _ & Hr & _).
  exists m'. split; [exact Hm' | apply Hr].
Defined.

(** * Further properties of the handlers and of the rendering *)

(** ** Writing a cell *)

Lemma get_array_set sq i v j :
  get (array_set sq i v) j = if decide (j = i) then v else get sq j.
Proof.
  unfold get, array_set. destruct (decide (i < length sq)) as [Hlt | Hge].
  - destruct (decide (j = i)) as [-> | Hne].
    + by rewrite list_lookup_insert_eq.
    + by rewrite list_lookup_insert_ne.
  - destruct (decide (j < length sq)) as [Hj | Hj].
    + rewrite lookup_app_l by done. destruct (decide (j = i)); [lia | done].
    + rewrite lookup_app_r by lia. rewrite (lookup_ge_None_2 sq j) by lia.
      destruct (decide (j - length sq < i - length sq)) as [Hk | Hk].
      * rewrite lookup_app_l by (rewrite length_replicate; lia).
        rewrite lookup_replicate_2 by done. destruct (decide (j = i)); [lia | done].
      * rewrite lookup_app_r by (rewrite length_replicate; lia).
        rewrite length_replicate. destruct (decide (j = i)) as [-> | Hne].
        -- by rewrite Nat.sub_diag.
        -- destruct (j - length sq - (i - length sq)) as [|k] eqn:E; [lia | done].
Qed.

Lemma length_array_set sq i v : length (array_set sq i v) = length sq `max` S i.
Proof.
  unfold array_set. destruct (decide (i < length sq)).
  - rewrite length_insert. lia.
  - rewrite !length_app, length_replicate. simpl. lia.
Qed.

Lemma handleClick_guard idx s :
  truthy (get (squares s) idx) || truthy (winner s) = false →
  handleClick idx s =
    setIsXNext (negb (isXNext s))
      (setSquares (array_set (squares s) idx (if isXNext s then str markX else str markO)) s).
Proof. intros H. unfold handleClick. by rewrite H. Qed.

(** X1. A click on a cell that reads as empty, when no winner is stored, is
    accepted: the cell takes the mark of the player to move, every other
    cell reads as before, the board keeps its length unless the index is
    past its end, the turn passes to the other player, and the chat and the
    stored outcome fields are untouched. *)
Theorem handleClick_accepted (idx : nat) (s : AppState) :
  truthy (get (squares s) idx) = false → truthy (winner s) = false →
  let s' := handleClick idx s in
  get (squares s') idx = (if isXNext s then str markX else str markO) ∧
  (∀ j, j ≠ idx → get (squares s') j = get (squares s) j) ∧
  length (squares s') = length (squares s) `max` S idx ∧
  isXNext s' = negb (isXNext s) ∧
  winner s' = winner s ∧ isDraw s' = isDraw s ∧ status s' = status s ∧
  messages s' = messages s ∧ chatInput s' = chatInput s ∧
  s' ≠ s.
Proof.
  intros Hc Hw s'. subst s'. rewrite handleClick_guard by (by rewrite Hc, Hw).
  simpl. repeat split.
  - rewrite get_array_set. by destruct (decide (idx = idx)).
  - intros j Hj. rewrite get_array_set. by destruct (decide (j = idx)).
  - apply length_array_set.
  - intros Heq. apply (f_equal isXNext) in Heq. simpl in Heq. by destruct (isXNext s).
Qed.

Lemma handleClick_accepted_witness :
  truthy (get (squares mounted) 4) = false ∧ truthy (winner mounted) = false ∧
  get (squares (handleClick 4 mounted)) 4 = str markX.
Proof.
  assert (H1 : truthy (get (squares mounted) 4) = false) by (vm_compute; reflexivity).
  assert (H2 : truthy (winner mounted) = false) by (vm_compute; reflexivity).
  split; [exact H1 |]. split; [exact H2 |].
  exact (proj1 (handleClick_accepted 4 mounted H1 H2)).
Defined.

(** ** The winner and the first winning line *)

Lemma calculateWinner_loop_find sq ls :
  calculateWinner_loop sq ls =
    match find (line_filled sq) ls with
    | Some l => get sq l.1.1
    | None => null
    end.
Proof.
  induction ls as [|[[a b] c] ls IH]; cbn [calculateWinner_loop find]; [done |].
  by destruct (line_filled sq (a, b, c)).
Qed.

(** X2. [calculateWinner] returns the content of the first cell of the first
    line, in the order of the table, whose three cells are non-empty and
    identical, and [null] when there is none; what it returns is [null] or a
    mark, never [undefined], also on a board that is too short or has holes. *)
Theorem calculateWinner_first_line (sq : list jsval) :
  calculateWinner sq =
    match recorded_winning_line sq with
    | Some l => get sq l.1.1
    | None => null
    end ∧
  (calculateWinner sq = null ∨ ∃ m, calculateWinner sq = str m) ∧
  (calculateWinner sq = null ↔ recorded_winning_line sq = None).
Proof.
  unfold calculateWinner, recorded_winning_line.
  rewrite calculateWinner_loop_find.
  destruct (find (line_filled sq) lines) as [[[a b] c]|] eqn:E; simpl.
  - apply find_some in E as [_ Hf]. unfold line_filled in Hf.
    apply andb_true_iff in Hf as [[Ht _]%andb_true_iff _].
    apply truthy_str in Ht as [m Hm]. rewrite Hm.
    repeat split; [right; eauto | discriminate | discriminate].
  - repeat split; by left.
Qed.

(** ** The trophy *)

(** X3. [handleMatchReaction] changes nothing when the message index is out
    of range.  Otherwise it adds exactly 1 to the trophy count of that
    message when the count is below 2^53 (and not below -2^53), and leaves a
    count of 2^53 as it is (the double addition rounds back); in every case
    it leaves the text and the reactions of that message, all other
    messages and the rest of the state as they were. *)
Theorem handleMatchReaction_spec (idx : nat) (s : AppState) :
  let s' := handleMatchReaction idx s in
  (length (messages s) ≤ idx → s' = s) ∧
  (∀ m, messages s !! idx = Some m → (- two53 ≤ matchReactions m < two53)%Z →
     messages s' !! idx =
       Some (mkMessage (text m) (reactions m) (matchReactions m + 1)%Z)) ∧
  (∀ m, messages s !! idx = Some m → matchReactions m = two53 →
     messages s' !! idx = Some m) ∧
  (∀ m, messages s !! idx = Some m →
     ∃ m', messages s' !! idx = Some m' ∧ text m' = text m ∧
           reactions m' = reactions m) ∧
  (∀ j, j ≠ idx → messages s' !! j = messages s !! j) ∧
  length (messages s') = length (messages s) ∧
  squares s' = squares s ∧ isXNext s' = isXNext s ∧ winner s' = winner s ∧
  isDraw s' = isDraw s ∧ status s' = status s ∧ chatInput s' = chatInput s.
Proof.
  unfold handleMatchReaction, setMessages. simpl.
  split; [| split; [| split; [| split; [| split; [| repeat split]]]]].
  - intros Hge. rewrite imap_select_ge by done. by destruct s.
  - intros m Hm Hrange. rewrite imap_select_eq, Hm. simpl. do 2 f_equal.
    case_bool_decide as Hz; [by apply number_succ_exact |].
    destruct (decide (matchReactions m = 0%Z)) as [-> | Hne]; [done | by destruct Hz].
  - intros m Hm Hfull. rewrite imap_select_eq, Hm. simpl. f_equal.
    rewrite Hfull, bool_decide_eq_true_2 by done. rewrite number_succ_two53.
    destruct m; simpl in *. by rewrite Hfull.
  - intros m Hm. rewrite imap_select_eq, Hm. simpl. eauto.
  - intros j Hj. by apply imap_select_ne.
  - by rewrite length_imap.
Qed.

Lemma handleMatchReaction_spec_witness :
  let m := default (mkMessage [] ∅ 0%Z) (messages one_message !! 0) in
  messages one_message !! 0 = Some m ∧ (- two53 ≤ matchReactions m < two53)%Z ∧
  messages (handleMatchReaction 0 one_message) !! 0 =
    Some (mkMessage (text m) (reactions m) (matchReactions m + 1)%Z).
Proof.
  intros m.
  assert (Hm : messages one_message !! 0 = Some m) by (vm_compute; reflexivity).
  assert (Hr : (- two53 ≤ matchReactions m < two53)%Z)
    by (vm_compute; split; [discriminate | reflexivity]).
  split; [exact Hm |]. split; [exact Hr |].
  exact (proj1 (proj2 (handleMatchReaction_spec 0 one_message)) m Hm Hr).
Defined.

(** ** What the status effect depends on *)

Lemma run_snoc s cs c : run s (cs ++ [c]) = step (run s cs) c.
Proof. unfold run. by rewrite foldl_app. Qed.

Lemma step_rendered s c : rendered (step s c).
Proof. apply useEffect_status_idempotent. Qed.

Lemma mounted_rendered : rendered mounted.
Proof. apply useEffect_status_idempotent. Qed.

Lemma run_rendered s cs : rendered s → rendered (run s cs).
Proof.
  revert s. induction cs as [|c cs IH]; intros s Hs; [done |].
  simpl. apply IH, step_rendered.
Qed.

Lemma rendered_winner s : rendered s → winner s = calculateWinner (squares s).
Proof. intros H. unfold rendered in H. rewrite <- H at 1. apply useEffect_status_winner. Qed.

Lemma rendered_isDraw s :
  rendered s →
  isDraw s = negb (truthy (calculateWinner (squares s))) && every_truthy (squares s).
Proof. intros H. unfold rendered in H. rewrite <- H at 1. apply useEffect_status_isDraw. Qed.

Lemma useEffect_status_status s :
  status (useEffect_status s) =
    if truthy (calculateWinner (squares s)) then
      lit "Player "
        ++ (if strict_eq (calculateWinner (squares s)) (str markX) then lit "1" else lit "2")
        ++ lit " (" ++ toString (calculateWinner (squares s)) ++ lit ") wins!"
    else if every_truthy (squares s) then lit "It's a draw!"
    else lit "Next: Player " ++ (if isXNext s then lit "1 (X)" else lit "2 (O)").
Proof.
  unfold useEffect_status.
  destruct (truthy (calculateWinner (squares s))); [done |].
  by destruct (every_truthy (squares s)).
Qed.

(** X4. The status effect is declared with the dependencies [squares] and
    [isXNext], and it depends on nothing else: two states that agree on the
    board and on the turn get the same winner, draw flag and status text,
    and the effect changes no other field.  Running it a second time
    changes nothing. *)
Theorem useEffect_status_dependencies (s1 s2 : AppState) :
  squares s1 = squares s2 → isXNext s1 = isXNext s2 →
  winner (useEffect_status s1) = winner (useEffect_status s2) ∧
  isDraw (useEffect_status s1) = isDraw (useEffect_status s2) ∧
  status (useEffect_status s1) = status (useEffect_status s2) ∧
  squares (useEffect_status s1) = squares s1 ∧
  isXNext (useEffect_status s1) = isXNext s1 ∧
  messages (useEffect_status s1) = messages s1 ∧
  chatInput (useEffect_status s1) = chatInput s1 ∧
  useEffect_status (useEffect_status s1) = useEffect_status s1.
Proof.
  intros Hsq Hx.
  rewrite !useEffect_status_winner, !useEffect_status_isDraw, !useEffect_status_status.
  rewrite Hsq, Hx.
  rewrite useEffect_status_squares, useEffect_status_isXNext.
  rewrite useEffect_status_messages, useEffect_status_chatInput.
  rewrite useEffect_status_idempotent. by rewrite Hsq, Hx.
Qed.

Lemma useEffect_status_dependencies_witness :
  let s1 := mounted in
  let s2 := setChatInput (lit "hi") mounted in
  squares s1 = squares s2 ∧ isXNext s1 = isXNext s2 ∧
  status (useEffect_status s1) = status (useEffect_status s2).
Proof.
  split; [reflexivity |]. split; [reflexivity |].
  apply (useEffect_status_dependencies mounted (setChatInput (lit "hi") mounted));
    reflexivity.
Defined.

(** A rendered state whose board and turn a handler left alone stays as it
    is under the effect, but for what the handler did elsewhere. *)
Lemma useEffect_status_frame s s' :
  rendered s → squares s' = squares s → isXNext s' = isXNext s →
  winner s' = winner s → isDraw s' = isDraw s → status s' = status s →
  useEffect_status s' = s'.
Proof.
  intros Hr Hsq Hx Hw Hd Hst.
  assert (Hw' : winner (useEffect_status s') = winner s').
  { rewrite useEffect_status_winner, Hsq, Hw. symmetry. by apply rendered_winner. }
  assert (Hd' : isDraw (useEffect_status s') = isDraw s').
  { rewrite useEffect_status_isDraw, Hsq, Hd. symmetry. by apply rendered_isDraw. }
  assert (Hst' : status (useEffect_status s') = status s').
  { rewrite useEffect_status_status, Hsq, Hx, Hst, <- useEffect_status_status.
    unfold rendered in Hr. by rewrite Hr. }
  pose proof (useEffect_status_squares s') as H1.
  pose proof (useEffect_status_isXNext s') as H2.
  pose proof (useEffect_status_messages s') as H3.
  pose proof (useEffect_status_chatInput s') as H4.
  destruct (useEffect_status s'), s'; simpl in *. congruence.
Qed.

(** ** The winner is the player who has just moved *)

Lemma no_line_filled sq l :
  truthy (calculateWinner sq) = false → l ∈ lines → line_filled sq l = false.
Proof.
  intros Hw Hl. destruct (line_filled sq l) eqn:E; [| done].
  assert (truthy (calculateWinner sq) = true); [| congruence].
  apply calculateWinner_loop_won. eauto.
Qed.

Lemma line_filled_cells sq a b c :
  line_filled sq (a, b, c) = true →
  ∃ m, get sq a = str m ∧ get sq b = str m ∧ get sq c = str m.
Proof.
  intros (m & Ha & Hb & Hc)%line_filled_iff. exists m. by rewrite !get_str.
Qed.

Lemma line_filled_ext sq sq' a b c :
  get sq' a = get sq a → get sq' b = get sq b → get sq' c = get sq c →
  line_filled sq' (a, b, c) = line_filled sq (a, b, c).
Proof. intros Ha Hb Hc. unfold line_filled. by rewrite Ha, Hb, Hc. Qed.

Lemma initialState_no_line l : line_filled initialState l = false.
Proof.
  destruct l as [[a b] c]. unfold line_filled.
  assert (truthy (get initialState a) = false) as ->; [| done].
  unfold get, initialState. destruct (replicate 9 null !! a) as [v|] eqn:E; [| done].
  apply lookup_replicate in E as [-> _]. done.
Qed.

Lemma handleClick_lines_of_last_mover idx s :
  rendered s → lines_of_last_mover s → lines_of_last_mover (handleClick idx s).
Proof.
  intros Hr Hinv.
  destruct (truthy (get (squares s) idx) || truthy (winner s)) eqn:Hg.
  { unfold handleClick. by rewrite Hg. }
  rewrite (handleClick_guard _ _ Hg). apply orb_false_iff in Hg as [Hc Hw].
  rewrite (rendered_winner _ Hr) in Hw.
  intros [[a b] c] Hl Hf. unfold last_mover. simpl in *.
  set (p := if isXNext s then str markX else str markO) in *.
  assert (Hp : p = str (if negb (isXNext s) then markO else markX))
    by (subst p; by destruct (isXNext s)).
  destruct (line_filled_cells _ _ _ _ Hf) as (m & Ha & Hb & Hc').
  rewrite get_array_set in Ha, Hb, Hc'. rewrite get_array_set.
  destruct (decide (a = idx)) as [-> | Hna]; [done |].
  destruct (decide (b = idx)) as [-> | Hnb]; [congruence |].
  destruct (decide (c = idx)) as [-> | Hnc]; [congruence |].
  pose proof (no_line_filled _ _ Hw Hl) as Hnone.
  rewrite <- (line_filled_ext _ (array_set (squares s) idx p)) in Hnone.
  - unfold line_filled in Hnone. congruence.
  - rewrite get_array_set. by destruct (decide (a = idx)).
  - rewrite get_array_set. by destruct (decide (b = idx)).
  - rewrite get_array_set. by destruct (decide (c = idx)).
Qed.

Lemma handle_board_unchanged c s :
  is_game_command c = false →
  squares (handle c s) = squares s ∧ isXNext (handle c s) = isXNext s ∧
  winner (handle c s) = winner s ∧ isDraw (handle c s) = isDraw s ∧
  status (handle c s) = status s.
Proof.
  destruct c as [idx | | value | | idx emoji | idx]; cbn [handle is_game_command];
    try discriminate; intros _; try done.
  unfold handleSendMessage. by case_bool_decide.
Qed.

Lemma step_lines_of_last_mover c s :
  rendered s → lines_of_last_mover s → lines_of_last_mover (step s c).
Proof.
  intros Hr Hinv.
  assert (H : lines_of_last_mover (handle c s)).
  { destruct (is_game_command c) eqn:Hc.
    - destruct c; try discriminate; cbn [handle].
      + by apply handleClick_lines_of_last_mover.
      + intros l Hl Hf. simpl in Hf. by rewrite initialState_no_line in Hf.
    - destruct (handle_board_unchanged c s Hc) as (Hsq & Hx & _).
      unfold lines_of_last_mover, last_mover. rewrite Hsq, Hx. exact Hinv. }
  unfold step, lines_of_last_mover, last_mover in *.
  by rewrite useEffect_status_squares, useEffect_status_isXNext.
Qed.

Lemma run_lines_of_last_mover cs s :
  rendered s → lines_of_last_mover s → lines_of_last_mover (run s cs).
Proof.
  revert s. induction cs as [|c cs IH]; intros s Hr Hinv; [done |].
  simpl. apply IH; [apply step_rendered | by apply step_lines_of_last_mover].
Qed.

Lemma mounted_lines_of_last_mover : lines_of_last_mover mounted.
Proof.
  intros l Hl Hf. unfold mounted in Hf. rewrite useEffect_status_squares in Hf.
  simpl in Hf. by rewrite initialState_no_line in Hf.
Qed.

(** X5. In every state reached from the mounted component, by any commands,
    a stored winner is the player who has just moved (X wins only when O is
    next to move, and conversely), and every line of three identical marks
    carries the marks of that player: the two players never both hold a
    line. *)
Theorem winner_is_last_mover (cs : list command) :
  let s := run mounted cs in
  (∀ m, winner s = str m → m = last_mover s) ∧
  (∀ m, getOutcome s = Win m → m = last_mover s) ∧
  (∀ l m, l ∈ lines → sq_line_mark (squares s) l m → m = last_mover s).
Proof.
  intros s.
  pose proof (run_rendered mounted cs mounted_rendered) as Hr.
  pose proof (run_lines_of_last_mover cs mounted mounted_rendered
                mounted_lines_of_last_mover) as Hinv.
  fold s in Hr, Hinv.
  assert (Hl : ∀ l m, l ∈ lines → sq_line_mark (squares s) l m → m = last_mover s).
  { intros l m Hl (Ha & Hb & Hc).
    assert (Hf : line_filled (squares s) l = true) by (apply line_filled_iff; by exists m).
    specialize (Hinv l Hl Hf). apply get_str in Ha. congruence. }
  assert (Hw : ∀ m, winner s = str m → m = last_mover s).
  { intros m Hm. rewrite (rendered_winner _ Hr) in Hm.
    pose proof (calculateWinner_loop_find (squares s) lines) as Hfind.
    fold (calculateWinner (squares s)) in Hfind. rewrite Hm in Hfind.
    destruct (find (line_filled (squares s)) lines) as [l|] eqn:E; [| discriminate].
    apply find_some in E as [Hin Hf]. apply list_elem_of_In in Hin.
    specialize (Hinv l Hin Hf). congruence. }
  repeat split; [exact Hw | | exact Hl].
  intros m Hm. apply Hw. unfold getOutcome in Hm.
  destruct (winner s); try (destruct (isDraw s); discriminate). congruence.
Qed.

(** ** Marks stay where they are *)

Lemma handleClick_keeps_marks idx s i m :
  get (squares s) i = str m → get (squares (handleClick idx s)) i = str m.
Proof.
  intros Hi. destruct (handleClick_cases idx s) as [-> | (Hf & -> & _)]; [done |].
  rewrite get_array_set. destruct (decide (i = idx)) as [-> | _]; [| done].
  rewrite Hi in Hf. discriminate.
Qed.

Lemma step_keeps_marks c s i m :
  is_reset c = false →
  get (squares s) i = str m → get (squares (step s c)) i = str m.
Proof.
  intros Hc Hi. unfold step. rewrite useEffect_status_squares.
  destruct (is_game_command c) eqn:Hg.
  - destruct c; try discriminate. cbn [handle]. by apply handleClick_keeps_marks.
  - destruct (handle_board_unchanged c s Hg) as (-> & _). done.
Qed.

(** X6. Only a reset removes or changes a mark: along any sequence of
    commands without a reset, a cell that holds a mark holds the same mark
    at the end. *)
Theorem marks_persist (s : AppState) (cs : list command) (i : nat) (m : mark) :
  Forall (λ c, is_reset c = false) cs →
  get (squares s) i = str m →
  get (squares (run s cs)) i = str m.
Proof.
  revert s. induction cs as [|c cs IH]; intros s Hcs Hi; [done |].
  apply Forall_cons in Hcs as [Hc Hcs]. simpl. apply IH; [done |].
  by apply step_keeps_marks.
Qed.

Lemma marks_persist_witness :
  let s := run mounted [Click 4] in
  let cs := [Click 4; Click 0; Send; Click 8] in
  Forall (λ c, is_reset c = false) cs ∧ get (squares s) 4 = str markX ∧
  get (squares (run s cs)) 4 = str markX.
Proof.
  assert (H1 : Forall (λ c, is_reset c = false) [Click 4; Click 0; Send; Click 8])
    by (repeat constructor).
  assert (H2 : get (squares (run mounted [Click 4])) 4 = str markX)
    by (vm_compute; reflexivity).
  split; [exact H1 |]. split; [exact H2 |].
  exact (marks_persist (run mounted [Click 4]) _ 4 markX H1 H2).
Defined.

(** ** The commands the rendering offers *)

Lemma renderBoard_onClick s :
  cell_onClick <$> concat (renderBoard s) = Click <$> seq 0 9.
Proof. reflexivity. Qed.

Lemma offered_Click s idx : offered s (Click idx) ↔ idx < 9.
Proof.
  unfold offered. rewrite renderBoard_onClick, list_elem_of_fmap. split.
  - intros (i & Hi & Hin). injection Hi as ->. apply elem_of_seq in Hin. lia.
  - intros Hlt. exists idx. split; [done |]. apply elem_of_seq. lia.
Qed.

Lemma renderReactions_commands msg i :
  (renderReactions msg i).*1 = MatchReaction i :: (React i <$> EMOJIS).
Proof.
  unfold renderReactions. rewrite fmap_cons, <- list_fmap_compose. reflexivity.
Qed.

Lemma offered_React s idx emoji :
  offered s (React idx emoji) ↔ idx < length (messages s) ∧ emoji ∈ EMOJIS.
Proof.
  unfold offered. setoid_rewrite renderReactions_commands. split.
  - intros (i & msg & Hmsg & Hin).
    apply elem_of_cons in Hin as [Hin | Hin]; [discriminate |].
    apply list_elem_of_fmap in Hin as (e & He & Hin).
    injection He as <- <-. split; [| done]. by apply lookup_lt_Some in Hmsg.
  - intros [Hlt He]. destruct (lookup_lt_is_Some_2 _ _ Hlt) as [msg Hmsg].
    exists idx, msg. split; [done |]. right.
    apply list_elem_of_fmap. by exists emoji.
Qed.

Lemma offered_MatchReaction s idx :
  offered s (MatchReaction idx) ↔ idx < length (messages s).
Proof.
  unfold offered. setoid_rewrite renderReactions_commands. split.
  - intros (i & msg & Hmsg & Hin).
    apply elem_of_cons in Hin as [Hin | Hin].
    + injection Hin as <-. by apply lookup_lt_Some in Hmsg.
    + apply list_elem_of_fmap in Hin as (e & He & _). discriminate.
  - intros Hlt. destruct (lookup_lt_is_Some_2 _ _ Hlt) as [msg Hmsg].
    exists idx, msg. split; [done |]. by left.
Qed.

(** ** The board keeps its nine cells *)

Lemma initialState_board9 : board9 initialState.
Proof. split; [reflexivity | repeat constructor; discriminate]. Qed.

Lemma handleClick_board9 idx s :
  idx < 9 → board9 (squares s) → board9 (squares (handleClick idx s)).
Proof.
  intros Hidx [Hlen Hdef].
  destruct (handleClick_cases idx s) as [-> | (_ & -> & _)]; [done |].
  unfold array_set. destruct (decide (idx < length (squares s))); [| lia].
  split; [by rewrite length_insert |].
  apply Forall_insert; [done |]. by destruct (isXNext s).
Qed.

Lemma step_board9 c s :
  offered s c → board9 (squares s) → board9 (squares (step s c)).
Proof.
  intros Ho Hb. unfold step. rewrite useEffect_status_squares.
  destruct (is_game_command c) eqn:Hg.
  - destruct c; try discriminate; cbn [handle].
    + apply offered_Click in Ho. by apply handleClick_board9.
    + apply initialState_board9.
  - destruct (handle_board_unchanged c s Hg) as (-> & _). done.
Qed.

Lemma ui_run_board9 cs s :
  board9 (squares s) → ui_run s cs → board9 (squares (run s cs)).
Proof.
  revert s. induction cs as [|c cs IH]; intros s Hb Hui; [done |].
  destruct Hui as [Ho Hui]. simpl. apply IH; [by apply step_board9 | done].
Qed.

Lemma mounted_board9 : board9 (squares mounted).
Proof. unfold mounted. rewrite useEffect_status_squares. apply initialState_board9. Qed.

(** X7. As long as every command is one the rendering offers (the board
    shows the buttons 0..8), the board has exactly nine cells, each [null],
    ['X'] or ['O']: no hole and no tenth cell ever appears, and the grid
    shows exactly the board, cell by cell in row-major order. *)
Theorem board_stays_nine_cells (cs : list command) :
  ui_run mounted cs →
  let s := run mounted cs in
  board9 (squares s) ∧
  cell_content <$> concat (renderBoard s) = squares s ∧
  cell_key <$> concat (renderBoard s) = seq 0 9.
Proof.
  intros Hui s. pose proof (ui_run_board9 cs mounted mounted_board9 Hui) as Hb.
  fold s in Hb. split; [exact Hb |]. split; [| reflexivity].
  destruct Hb as [Hlen _].
  destruct (squares s) as [|c0 [|c1 [|c2 [|c3 [|c4 [|c5 [|c6 [|c7 [|c8 [|c9 r]]]]]]]]]] eqn:E;
    try discriminate.
  unfold renderBoard, renderCell. simpl. rewrite E. reflexivity.
Qed.

Lemma board_stays_nine_cells_witness :
  ui_run mounted scenario_moves ∧ board9 (squares (run mounted scenario_moves)).
Proof.
  assert (H : ui_run mounted scenario_moves).
  { unfold scenario_moves. cbn [ui_run]. repeat split; apply offered_Click; lia. }
  split; [exact H |]. exact (proj1 (board_stays_nine_cells scenario_moves H)).
Defined.

(** ** A finished game *)

Lemma rendered_outcome s :
  rendered s →
  getOutcome s =
    match calculateWinner (squares s) with
    | str m => Win m
    | _ => if every_truthy (squares s) then Draw else InProgress
    end.
Proof.
  intros Hr. unfold rendered in Hr. rewrite <- Hr at 1.
  rewrite outcome_of_state. apply outcome_of_cases.
Qed.

Lemma finished_guard idx s :
  rendered s → board9 (squares s) → idx < 9 → getOutcome s ≠ InProgress →
  truthy (get (squares s) idx) || truthy (winner s) = true.
Proof.
  intros Hr Hb Hidx Ho. rewrite (rendered_outcome _ Hr) in Ho.
  rewrite (rendered_winner _ Hr).
  destruct (calculateWinner (squares s)); simpl; [| | by rewrite orb_true_r].
  all: destruct (every_truthy (squares s)) eqn:Ee; [| done].
  all: apply (every_truthy_board9 _ Hb) in Ee; destruct (Ee idx Hidx) as [m Hm].
  all: apply get_str in Hm; by rewrite Hm.
Qed.

Lemma step_finished s c :
  rendered s → board9 (squares s) → getOutcome s ≠ InProgress →
  is_reset c = false → offered s c →
  squares (step s c) = squares s ∧ isXNext (step s c) = isXNext s ∧
  winner (step s c) = winner s ∧ isDraw (step s c) = isDraw s ∧
  status (step s c) = status s.
Proof.
  intros Hr Hb Ho Hc Hoff. unfold step.
  destruct (is_game_command c) eqn:Hg.
  - destruct c as [idx| | | | |]; try discriminate. cbn [handle].
    apply offered_Click in Hoff.
    unfold handleClick. rewrite (finished_guard idx s Hr Hb Hoff Ho).
    unfold rendered in Hr. by rewrite Hr.
  - destruct (handle_board_unchanged c s Hg) as (Hsq & Hx & Hw & Hd & Hst).
    rewrite (useEffect_status_frame s (handle c s)); done.
Qed.

(** X8. Once the game is won or drawn it stays as it is until a reset:
    along any sequence of offered commands without a reset, the board, the
    turn, the outcome and the status text do not change. *)
Theorem finished_game_frozen (s : AppState) (cs : list command) :
  rendered s → board9 (squares s) → getOutcome s ≠ InProgress →
  Forall (λ c, is_reset c = false) cs → ui_run s cs →
  let s' := run s cs in
  squares s' = squares s ∧ isXNext s' = isXNext s ∧
  getOutcome s' = getOutcome s ∧ status s' = status s.
Proof.
  revert s. induction cs as [|c cs IH]; intros s Hr Hb Ho Hcs Hui; [done |].
  apply Forall_cons in Hcs as [Hc Hcs]. destruct Hui as [Hoff Hui].
  destruct (step_finished s c Hr Hb Ho Hc Hoff) as (Hsq & Hx & Hw & Hd & Hst).
  assert (Hout : getOutcome (step s c) = getOutcome s)
    by (unfold getOutcome; by rewrite Hw, Hd).
  cbn zeta. simpl. rewrite <- Hsq, <- Hx, <- Hout, <- Hst.
  apply IH; try done.
  - apply step_rendered.
  - by rewrite Hsq.
  - by rewrite Hout.
Qed.

Lemma finished_game_frozen_witness :
  let s := run mounted scenario_moves in
  let cs := [Click 3; Send; Click 8] in
  rendered s ∧ board9 (squares s) ∧ getOutcome s ≠ InProgress ∧
  Forall (λ c, is_reset c = false) cs ∧ ui_run s cs ∧
  squares (run s cs) = squares s.
Proof.
  assert (H1 : rendered (run mounted scenario_moves))
    by apply run_rendered, mounted_rendered.
  assert (H2 : board9 (squares (run mounted scenario_moves))).
  { split; [vm_compute; reflexivity |]. vm_compute. repeat constructor; discriminate. }
  assert (H3 : getOutcome (run mounted scenario_moves) ≠ InProgress).
  { intros H. vm_compute in H. discriminate H. }
  assert (H4 : Forall (λ c, is_reset c = false) [Click 3; Send; Click 8])
    by (repeat constructor).
  assert (H5 : ui_run (run mounted scenario_moves) [Click 3; Send; Click 8]).
  { cbn [ui_run]. repeat split; apply offered_Click; lia. }
  repeat (split; [assumption |]).
  exact (proj1 (finished_game_frozen _ _ H1 H2 H3 H4 H5)).
Defined.

(** ** A game in progress *)

Lemma every_truthy_false sq :
  every_truthy sq = false → ∃ i, sq !! i = Some null.
Proof.
  unfold every_truthy. induction sq as [|v sq IH]; simpl; [discriminate |].
  destruct v; simpl.
  - intros (i & Hi)%IH. by exists (S i).
  - intros _. by exists 0.
  - intros (i & Hi)%IH. by exists (S i).
Qed.

(** X9. A rendered game in progress on a nine-cell board has an empty cell,
    and a click on any empty cell is accepted: it puts the mark of the
    player to move there.  So the game can always go on until it is won or
    drawn. *)
Theorem in_progress_has_move (s : AppState) :
  rendered s → board9 (squares s) → getOutcome s = InProgress →
  (∃ idx, idx < 9 ∧ get (squares s) idx = null) ∧
  (∀ idx, get (squares s) idx = null →
     handleClick idx s ≠ s ∧
     get (squares (handleClick idx s)) idx = (if isXNext s then str markX else str markO)).
Proof.
  intros Hr [Hlen Hdef] Ho.
  assert (Hw : truthy (winner s) = false).
  { unfold getOutcome in Ho. by destruct (winner s). }
  assert (He : every_truthy (squares s) = false).
  { rewrite (rendered_outcome _ Hr) in Ho. rewrite (rendered_winner _ Hr) in Hw.
    destruct (calculateWinner (squares s)); try discriminate;
      by destruct (every_truthy (squares s)). }
  split.
  - destruct (every_truthy_false _ He) as [i Hi]. exists i. split.
    + apply lookup_lt_Some in Hi. lia.
    + unfold get. by rewrite Hi.
  - intros idx Hidx.
    rewrite handleClick_guard by (by rewrite Hidx, Hw). simpl. split.
    + intros Heq. apply (f_equal isXNext) in Heq. simpl in Heq. by destruct (isXNext s).
    + rewrite get_array_set. by destruct (decide (idx = idx)).
Qed.

Lemma in_progress_has_move_witness :
  rendered mounted ∧ board9 (squares mounted) ∧ getOutcome mounted = InProgress ∧
  ∃ idx, idx < 9 ∧ get (squares mounted) idx = null.
Proof.
  assert (H : getOutcome mounted = InProgress) by (vm_compute; reflexivity).
  split; [exact mounted_rendered |]. split; [exact mounted_board9 |].
  split; [exact H |].
  exact (proj1 (in_progress_has_move mounted mounted_rendered mounted_board9 H)).
Defined.

(** ** A drawn game *)

Lemma count_filled_full sq :
  every_truthy sq = true → Forall (λ v, v ≠ undefined) sq → count_filled sq = length sq.
Proof.
  unfold every_truthy, count_filled. induction sq as [|v sq IH]; [done |].
  simpl. intros [Hv Hsq]%andb_true_iff [Hu Hdef]%Forall_cons.
  rewrite length_filter_cons, IH by done. unfold indicator.
  destruct v; simpl in *; done.
Qed.

(** The nine moves of a drawn game: X O X / X O O / O X X at the end. *)
Lemma draw_moves_ui_run :
  ui_run mounted
    [Click 0; Click 1; Click 2; Click 4; Click 3; Click 5; Click 7; Click 6; Click 8].
Proof. cbn [ui_run]. repeat split; apply offered_Click; lia. Qed.

(** X10. When every command is one the rendering offers, the board never
    holds more than nine marks, and a drawn game always shows five X and
    four O, with O next in turn: the draw comes with the ninth move, which
    is X's. *)
Theorem draw_is_five_to_four (cs : list command) :
  ui_run mounted cs →
  let s := run mounted cs in
  count_filled (squares s) ≤ 9 ∧
  (getOutcome s = Draw →
     count_mark markX (squares s) = 5 ∧ count_mark markO (squares s) = 4 ∧
     isXNext s = false).
Proof.
  intros Hui s.
  pose proof (ui_run_board9 cs mounted mounted_board9 Hui) as [Hlen Hdef].
  pose proof (run_rendered mounted cs mounted_rendered) as Hr.
  pose proof (run_turn_matches_counts cs mounted mounted_turn_matches_counts) as Ht.
  fold s in Hlen, Hdef, Hr, Ht. split.
  - unfold count_filled. rewrite <- Hlen. apply length_filter.
  - intros Ho. rewrite (rendered_outcome _ Hr) in Ho.
    assert (He : every_truthy (squares s) = true).
    { destruct (calculateWinner (squares s)); try discriminate;
        by destruct (every_truthy (squares s)). }
    pose proof (count_filled_full _ He Hdef) as Hc.
    rewrite count_filled_marks, Hlen in Hc.
    unfold turn_matches_counts in Ht. destruct (isXNext s); lia.
Qed.

Lemma draw_is_five_to_four_witness :
  let cs := [Click 0; Click 1; Click 2; Click 4; Click 3; Click 5; Click 7; Click 6; Click 8] in
  ui_run mounted cs ∧ getOutcome (run mounted cs) = Draw ∧
  count_mark markX (squares (run mounted cs)) = 5.
Proof.
  intros cs.
  assert (H : getOutcome (run mounted cs) = Draw) by (vm_compute; reflexivity).
  split; [exact draw_moves_ui_run |]. split; [exact H |].
  exact (proj1 (proj2 (draw_is_five_to_four cs draw_moves_ui_run) H)).
Defined.

(** ** Buttons and handlers agree *)

(** X11. A cell's button is disabled exactly when a click on that cell
    would be ignored: [renderCell] and [handleClick] apply the same test,
    and an accepted click always changes the state. *)
Theorem renderCell_disabled_iff_ignored (idx : nat) (s : AppState) :
  cell_disabled (renderCell idx s) = true ↔ handleClick idx s = s.
Proof.
  simpl. destruct (truthy (get (squares s) idx) || truthy (winner s)) eqn:Hg.
  - split; [intros _ | done]. unfold handleClick. by rewrite Hg.
  - split; [discriminate |]. rewrite (handleClick_guard _ _ Hg).
    intros Heq. apply (f_equal isXNext) in Heq. simpl in Heq. by destruct (isXNext s).
Qed.

(** X12. The send button is disabled exactly when submitting the form would
    be ignored, that is when the input is empty or blank. *)
Theorem sendButton_disabled_iff_ignored (s : AppState) :
  sendButton_disabled s = true ↔ (handleSendMessage s).1 = s.
Proof.
  unfold sendButton_disabled, handleSendMessage.
  case_bool_decide as Ht; simpl.
  - done.
  - split; [discriminate |]. intros Heq. apply (f_equal (length ∘ messages)) in Heq.
    simpl in Heq. rewrite length_app in Heq. simpl in Heq. lia.
Qed.

Lemma isCellWinning_cells idx sq :
  isCellWinning idx sq = true →
  ∃ l, l ∈ lines ∧ line_filled sq l = true ∧ get sq idx = get sq l.1.1.
Proof.
  intros ([[a b] c] & Hl & Hf & Hi)%isCellWinning_loop_iff.
  exists (a, b, c). split; [done |]. split; [done |].
  destruct (line_filled_cells _ _ _ _ Hf) as (m & Ha & Hb & Hc).
  apply includes_iff in Hi. simpl in *.
  repeat (apply elem_of_cons in Hi as [-> | Hi]; [congruence |]). inversion Hi.
Qed.

(** X13. In every state reached from the mounted component, a cell gets the
    highlighted border exactly when [isCellWinning] holds for it (the test
    on [winner] in front of it never hides a winning cell), and a
    highlighted cell always shows the mark of the stored winner. *)
Theorem renderCell_highlight (cs : list command) (idx : nat) :
  let s := run mounted cs in
  (cell_borderColor (renderCell idx s) = accent ↔ isCellWinning idx (squares s) = true) ∧
  (cell_borderColor (renderCell idx s) = accent →
     truthy (winner s) = true ∧ cell_content (renderCell idx s) = winner s).
Proof.
  intros s.
  pose proof (run_rendered mounted cs mounted_rendered) as Hr.
  pose proof (run_lines_of_last_mover cs mounted mounted_rendered
                mounted_lines_of_last_mover) as Hinv.
  fold s in Hr, Hinv.
  assert (Hwin : isCellWinning idx (squares s) = true →
                 winner s = str (last_mover s) ∧ get (squares s) idx = winner s).
  { intros (l & Hl & Hf & Hidx)%isCellWinning_cells.
    assert (Hw : winner s = str (last_mover s)).
    { rewrite (rendered_winner _ Hr). unfold calculateWinner.
      rewrite calculateWinner_loop_find.
      destruct (find (line_filled (squares s)) lines) as [l0|] eqn:E.
      - apply find_some in E as [Hin0 Hf0]. apply list_elem_of_In in Hin0. by apply Hinv.
      - rewrite (find_none _ _ E l) in Hf; [discriminate | by apply list_elem_of_In]. }
    split; [done |]. rewrite Hidx, Hw. by apply Hinv. }
  simpl. split.
  - destruct (isCellWinning idx (squares s)) eqn:Ec.
    + destruct (Hwin eq_refl) as [-> _]. done.
    + destruct (truthy (winner s)); simpl; split; discriminate.
  - destruct (isCellWinning idx (squares s)) eqn:Ec.
    + destruct (Hwin eq_refl) as [Hw Hc]. rewrite Hw in *. done.
    + destruct (truthy (winner s)); simpl; discriminate.
Qed.

(** ** The board engine and the chat do not touch each other *)

Lemma handle_chat_unchanged c s :
  is_game_command c = true →
  messages (handle c s) = messages s ∧ chatInput (handle c s) = chatInput s.
Proof.
  destruct c as [idx | | value | | idx emoji | idx]; cbn [handle is_game_command];
    try discriminate; intros _; [| done].
  destruct (handleClick_cases idx s) as [-> | (_ & _ & _ & Hm)]; [done |].
  split; [done |]. unfold handleClick.
  by destruct (truthy (get (squares s) idx) || truthy (winner s)).
Qed.

(** X14. A chat command (typing, sending, reacting, the trophy) leaves the
    board, the turn, the winner, the draw flag and the status text of a
    rendered state as they are; a game command (a click on a cell, the
    reset) leaves the messages and the input field as they are. *)
Theorem game_and_chat_are_separate (s : AppState) (c : command) :
  rendered s →
  (is_game_command c = false →
     squares (step s c) = squares s ∧ isXNext (step s c) = isXNext s ∧
     winner (step s c) = winner s ∧ isDraw (step s c) = isDraw s ∧
     status (step s c) = status s) ∧
  (is_game_command c = true →
     messages (step s c) = messages s ∧ chatInput (step s c) = chatInput s).
Proof.
  intros Hr. unfold step. split; intros Hc.
  - destruct (handle_board_unchanged c s Hc) as (Hsq & Hx & Hw & Hd & Hst).
    rewrite (useEffect_status_frame s (handle c s)); done.
  - rewrite useEffect_status_messages, useEffect_status_chatInput.
    by apply handle_chat_unchanged.
Qed.

Lemma game_and_chat_are_separate_witness :
  rendered mounted ∧
  messages (step mounted (Click 4)) = messages mounted.
Proof.
  split; [exact mounted_rendered |].
  apply (game_and_chat_are_separate mounted (Click 4) mounted_rendered). reflexivity.
Defined.

(** ** Invariants of the message log *)

(** A property of messages that the new message has and the two counter
    updates keep holds for the whole log after any command. *)
Lemma handle_messages_Forall (P : Message → Prop) c s :
  Forall P (messages s) →
  (c = Send → trim (chatInput s) ≠ [] → P (mkMessage (trim (chatInput s)) ∅ 0%Z)) →
  (∀ idx emoji m, c = React idx emoji → idx < length (messages s) → P m →
     P (react_once emoji m)) →
  (∀ idx m, c = MatchReaction idx → P m → P (trophy_once m)) →
  Forall P (messages (handle c s)).
Proof.
  intros Hall Hsend Hreact Hmatch.
  destruct c as [idx | | value | | idx emoji | idx]; cbn [handle]; try done.
  - by destruct (handleClick_cases idx s) as [-> | (_ & _ & _ & ->)].
  - unfold handleSendMessage. case_bool_decide as Ht; simpl; [done |].
    apply Forall_app. split; [done |]. constructor; [by apply Hsend | constructor].
  - unfold handleReact. simpl. apply Forall_lookup. intros i m'.
    intros (m & Hm & ->)%list_lookup_imap_Some.
    pose proof (Forall_lookup_1 _ _ _ _ Hall Hm) as HP.
    case_bool_decide as Hi; [| done]. subst i.
    apply (Hreact idx emoji); [done | by apply lookup_lt_Some in Hm | done].
  - unfold handleMatchReaction. simpl. apply Forall_lookup. intros i m'.
    intros (m & Hm & ->)%list_lookup_imap_Some.
    pose proof (Forall_lookup_1 _ _ _ _ Hall Hm) as HP.
    case_bool_decide as Hi; [| done].
    by apply (Hmatch idx).
Qed.

Lemma trimStart_fixed s :
  (∀ c, head s = Some c → isWhiteSpace c = false) → trimStart s = s.
Proof. destruct s as [|c s]; [done |]. intros H. simpl. by rewrite (H c). Qed.

Lemma trim_fixed s :
  (∀ c, head s = Some c → isWhiteSpace c = false) →
  (∀ c, last s = Some c → isWhiteSpace c = false) →
  trim s = s.
Proof.
  intros Hh Hl. unfold trim, trimEnd. rewrite (trimStart_fixed s Hh).
  rewrite trimStart_fixed; [apply reverse_involutive |].
  intros c Hc. apply Hl. by rewrite <- head_reverse.
Qed.

Lemma trim_idempotent s : trim (trim s) = trim s.
Proof. destruct (trim_spec s) as (_ & Hh & Hl). by apply trim_fixed. Qed.

Lemma trim_length s : length (trim s) ≤ length s.
Proof.
  destruct (trim_spec s) as ((pre & suf & Hs & _) & _).
  rewrite Hs at 2. rewrite !length_app. lia.
Qed.

(** X15. Every message of every state reached from the mounted component
    has a text that is not empty and is trimmed (trimming it again changes
    nothing: it neither starts nor ends with white space). *)
Theorem stored_texts_are_trimmed (cs : list command) :
  Forall trimmed_text (messages (run mounted cs)).
Proof.
  induction cs as [|c cs IH] using rev_ind; [by constructor |].
  rewrite run_snoc, step_messages.
  apply handle_messages_Forall; [done | | |]; unfold trimmed_text; simpl.
  - intros _ Ht. split; [done | apply trim_idempotent].
  - by intros _ _ m _ _ H.
  - by intros _ m _ H.
Qed.

(** X16. When every command is one the rendering offers, every entry of
    every reaction object belongs to a symbol of [EMOJIS] and is a number
    that is at least 1: the objects never grow beyond the five symbols, and
    an entry exists only for a symbol that has been used. *)
Theorem reaction_entries_in_alphabet (cs : list command) :
  ui_run mounted cs →
  Forall alphabet_entries (messages (run mounted cs)).
Proof.
  intros Hui.
  apply (Forall_impl (λ m, ∀ e v, reactions m !! e = Some v →
                             e ∈ EMOJIS ∧ ∃ n, v = r_num n ∧ (1 ≤ n ≤ two53)%Z)).
  2: { intros m Hm e v Hv. destruct (Hm e v Hv) as (He & n & -> & Hn).
       split; [done |]. exists n. split; [done | lia]. }
  revert Hui. induction cs as [|c cs IH] using rev_ind; intros Hui; [by constructor |].
  assert (Hsplit : ui_run mounted cs ∧ offered (run mounted cs) c).
  { clear IH. revert Hui. generalize mounted.
    induction cs as [|c' cs IH]; intros s; simpl; [tauto |].
    intros [Ho Hui]. destruct (IH _ Hui). tauto. }
  destruct Hsplit as [Hui' Hoff]. specialize (IH Hui').
  rewrite run_snoc, step_messages.
  apply handle_messages_Forall; [done | | |]; simpl.
  - intros _ _ e n He. by rewrite lookup_empty in He.
  - intros idx emoji m -> _ Hm e v. apply offered_React in Hoff as [_ Hin].
    destruct (decide (e = emoji)) as [-> | Hne].
    + rewrite lookup_insert_eq. intros [= <-]. split; [done |].
      unfold reaction_read.
      destruct (reactions m !! emoji) as [v |] eqn:E.
      * destruct (Hm _ _ E) as (_ & n & -> & Hn). simpl. rewrite truthy_or_zero.
        eexists. split; [done |].
        pose proof (number_succ_bounded n ltac:(lia)). lia.
      * rewrite bool_decide_eq_false_2 by (by apply EMOJIS_not_inherited).
        simpl. exists 1%Z. split; [done |]. unfold two53. lia.
    + rewrite lookup_insert_ne by done. apply Hm.
  - intros idx m _ Hm. exact Hm.
Qed.

Lemma reaction_entries_in_alphabet_witness :
  let cs := [ChangeInput (lit "hi"); Send; React 0 thumbs_up] in
  ui_run mounted cs ∧ Forall alphabet_entries (messages (run mounted cs)).
Proof.
  intros cs.
  assert (H : ui_run mounted cs).
  { subst cs. cbn [ui_run]. repeat split. apply offered_React. split.
    - vm_compute. lia.
    - unfold EMOJIS, thumbs_up. set_solver. }
  split; [exact H |]. exact (reaction_entries_in_alphabet cs H).
Defined.

Lemma chatInput_within_maxLength cs :
  Forall within_maxLength cs → length (chatInput (run mounted cs)) ≤ 200.
Proof.
  induction cs as [|c cs IH] using rev_ind; intros Hcs; [simpl; lia |].
  apply Forall_app in Hcs as [Hcs Hc]. apply Forall_cons in Hc as [Hc _].
  specialize (IH Hcs). rewrite run_snoc. unfold step.
  rewrite useEffect_status_chatInput.
  destruct c as [idx | | value | | idx emoji | idx]; cbn [handle].
  - destruct (handle_chat_unchanged (Click idx) (run mounted cs) eq_refl) as [_ H].
    cbn [handle] in H. by rewrite H.
  - done.
  - exact Hc.
  - unfold handleSendMessage. case_bool_decide; simpl; [done | lia].
  - done.
  - done.
Qed.

(** X17. If the input field never hands over more than 200 code units (its
    [maxLength]), no stored message text is longer than 200 code units. *)
Theorem stored_texts_within_maxLength (cs : list command) :
  Forall within_maxLength cs →
  Forall (λ m, length (text m) ≤ 200) (messages (run mounted cs)).
Proof.
  induction cs as [|c cs IH] using rev_ind; intros Hcs; [by constructor |].
  pose proof Hcs as Hcs'. apply Forall_app in Hcs' as [Hcs' _].
  specialize (IH Hcs'). rewrite run_snoc, step_messages.
  apply handle_messages_Forall; [done | | |]; simpl.
  - intros _ _. pose proof (trim_length (chatInput (run mounted cs))).
    pose proof (chatInput_within_maxLength cs Hcs'). lia.
  - by intros _ _ m _ _ H.
  - by intros _ m _ H.
Qed.

Lemma stored_texts_within_maxLength_witness :
  let cs := [ChangeInput (lit "  hi  "); Send] in
  Forall within_maxLength cs ∧
  Forall (λ m, length (text m) ≤ 200) (messages (run mounted cs)).
Proof.
  intros cs.
  assert (H : Forall within_maxLength cs).
  { subst cs. repeat constructor. }
  split; [exact H |]. exact (stored_texts_within_maxLength cs H).
Defined.

(** ** Counters count button presses *)

Lemma handleReact_messages idx emoji s :
  messages (handleReact idx emoji s) =
  imap (λ i m, if bool_decide (i = idx) then react_once emoji m else m) (messages s).
Proof. reflexivity. Qed.

Lemma handleMatchReaction_messages idx s :
  messages (handleMatchReaction idx s) =
  imap (λ i m, if bool_decide (i = idx) then trophy_once m else m) (messages s).
Proof. reflexivity. Qed.

Lemma trophy_once_succ m :
  (- two53 ≤ matchReactions m < two53)%Z →
  matchReactions (trophy_once m) = (matchReactions m + 1)%Z.
Proof.
  intros Hr. unfold trophy_once. simpl.
  case_bool_decide as Hz; [by apply number_succ_exact |].
  destruct (decide (matchReactions m = 0%Z)) as [-> | Hne]; [done | by destruct Hz].
Qed.

Lemma react_once_count emoji m e :
  counter_key m e → (- two53 ≤ reaction_count m e)%Z →
  (reaction_count m e + (if decide (e = emoji) then 1 else 0) ≤ two53)%Z →
  counter_key (react_once emoji m) e ∧
  reaction_count (react_once emoji m) e =
    (reaction_count m e + if decide (e = emoji) then 1 else 0)%Z.
Proof.
  intros Hkey Hlo Hhi. unfold counter_key, reaction_read, reaction_count, react_once.
  simpl. destruct (decide (e = emoji)) as [-> | Hne].
  - rewrite lookup_insert_eq, (reaction_next_counter _ _ Hkey).
    rewrite number_succ_exact by lia. done.
  - rewrite lookup_insert_ne by done. split; [exact Hkey |].
    fold (reaction_count m e). lia.
Qed.

Lemma handle_counts c s i m :
  messages s !! i = Some m →
  ∃ m', messages (handle c s) !! i = Some m' ∧ text m' = text m ∧
        (∀ e, counter_key m e → (- two53 ≤ reaction_count m e)%Z →
              (reaction_count m e + Z.of_nat (indicator (λ c', c' = React i e) c)
                 ≤ two53)%Z →
              counter_key m' e ∧
              reaction_count m' e =
                (reaction_count m e + Z.of_nat (indicator (λ c', c' = React i e) c))%Z) ∧
        ((- two53 ≤ matchReactions m)%Z →
         (matchReactions m + Z.of_nat (indicator (λ c', c' = MatchReaction i) c)
            ≤ two53)%Z →
         matchReactions m' =
           (matchReactions m + Z.of_nat (indicator (λ c', c' = MatchReaction i) c))%Z).
Proof.
  intros Hm.
  assert (Hsame : ∀ c', (∀ e, c' ≠ React i e) → c' ≠ MatchReaction i →
            ∃ m', Some m = Some m' ∧ text m' = text m ∧
              (∀ e, counter_key m e → (- two53 ≤ reaction_count m e)%Z →
                 (reaction_count m e + Z.of_nat (indicator (λ c'', c'' = React i e) c')
                    ≤ two53)%Z →
                 counter_key m' e ∧
                 reaction_count m' e =
                   (reaction_count m e
                    + Z.of_nat (indicator (λ c'', c'' = React i e) c'))%Z) ∧
              ((- two53 ≤ matchReactions m)%Z →
               (matchReactions m + Z.of_nat (indicator (λ c'', c'' = MatchReaction i) c')
                  ≤ two53)%Z →
               matchReactions m' =
                 (matchReactions m
                  + Z.of_nat (indicator (λ c'', c'' = MatchReaction i) c'))%Z)).
  { intros c' H1 H2. exists m. unfold indicator. cbn beta.
    split; [done |]. split; [done |]. split.
    - intros e Hkey _ _. split; [done |].
      destruct (decide (c' = React i e)) as [He | _]; [by destruct (H1 e) | lia].
    - intros _ _. destruct (decide (c' = MatchReaction i)); [done | lia]. }
  destruct c as [idx | | value | | idx emoji | idx]; cbn [handle].
  - destruct (handleClick_cases idx s) as [-> | (_ & _ & _ & ->)];
      rewrite Hm; by apply Hsame.
  - simpl. rewrite Hm. by apply Hsame.
  - simpl. rewrite Hm. by apply Hsame.
  - unfold handleSendMessage. case_bool_decide; simpl.
    + rewrite Hm. by apply Hsame.
    + rewrite (lookup_app_l_Some _ _ _ _ Hm). by apply Hsame.
  - rewrite handleReact_messages, list_lookup_imap, Hm. simpl.
    case_bool_decide as Hi.
    + subst idx. eexists. split; [done |]. split; [done |]. split.
      * intros e Hkey Hlo Hhi. unfold indicator in *. cbn beta in *.
        assert (Hind : (if decide (React i emoji = React i e) then 1 else 0) =
                       (if decide (e = emoji) then 1 else 0)).
        { destruct (decide (React i emoji = React i e)) as [Heq | Hneq];
            destruct (decide (e = emoji)) as [He | He]; try done; congruence. }
        rewrite Hind in *. clear Hind.
        destruct (react_once_count emoji m e Hkey Hlo) as [Hk' Hc'].
        -- destruct (decide (e = emoji)); simpl in *; lia.
        -- split; [done |]. rewrite Hc'. destruct (decide (e = emoji)); simpl; lia.
      * intros _ _. simpl. unfold indicator. destruct (decide _); [discriminate | lia].
    + apply Hsame; congruence.
  - rewrite handleMatchReaction_messages, list_lookup_imap, Hm. simpl.
    case_bool_decide as Hi.
    + subst idx. eexists. split; [done |]. split; [done |]. split.
      * intros e Hkey _ _. unfold indicator. destruct (decide _); [discriminate |].
        split; [exact Hkey |]. unfold reaction_count. simpl. lia.
      * intros Hlo Hhi. unfold indicator in *.
        destruct (decide _) as [_ | Hne]; [| done].
        rewrite trophy_once_succ; [done |]. simpl in Hhi. lia.
    + apply Hsame; congruence.
Qed.

(** X18. Each counter counts the presses of its button, as long as it stays
    within the exact range: along any sequence of commands, from any state,
    the count of a symbol used as a counter on a message (its key reads as a
    number or as nothing) grows by the number of [handleReact] calls for
    that message and symbol, provided it starts at -2^53 or more and does
    not pass 2^53; the trophy count grows by the number of
    [handleMatchReaction] calls for that message under the same proviso;
    and the text stays. *)
Theorem counters_count_presses (s : AppState) (cs : list command) (i : nat) (m : Message) :
  messages s !! i = Some m →
  ∃ m', messages (run s cs) !! i = Some m' ∧ text m' = text m ∧
        (∀ e, counter_key m e → (- two53 ≤ reaction_count m e)%Z →
              (reaction_count m e + Z.of_nat (occurrences (React i e) cs) ≤ two53)%Z →
              reaction_count m' e =
                (reaction_count m e + Z.of_nat (occurrences (React i e) cs))%Z) ∧
        ((- two53 ≤ matchReactions m)%Z →
         (matchReactions m + Z.of_nat (occurrences (MatchReaction i) cs) ≤ two53)%Z →
         matchReactions m' =
           (matchReactions m + Z.of_nat (occurrences (MatchReaction i) cs))%Z).
Proof.
  revert s m. induction cs as [|c cs IH]; intros s m Hm.
  - exists m. unfold occurrences. split; [done |]. split; [done |].
    split; [intros e _ _ _ | intros _ _]; rewrite filter_nil; simpl; lia.
  - destruct (handle_counts c s i m Hm) as (m1 & Hm1 & Ht1 & Hr1 & Hz1).
    rewrite <- step_messages in Hm1.
    destruct (IH _ _ Hm1) as (m2 & Hm2 & Ht2 & Hr2 & Hz2).
    exists m2. simpl. split; [done |]. split; [congruence |].
    unfold occurrences in *. split.
    + intros e Hkey Hlo Hhi. rewrite length_filter_cons in *.
      destruct (Hr1 e Hkey Hlo) as [Hk1 Hc1]; [lia |].
      rewrite Hr2 by (done || lia). lia.
    + intros Hlo Hhi. rewrite length_filter_cons in *.
      rewrite Hz2; rewrite Hz1 by lia; lia.
Qed.

Lemma counters_count_presses_witness :
  let cs := [React 0 thumbs_up; MatchReaction 0; React 0 thumbs_up] in
  let m := default (mkMessage [] ∅ 0%Z) (messages one_message !! 0) in
  messages one_message !! 0 = Some m ∧
  counter_key m thumbs_up ∧ (- two53 ≤ reaction_count m thumbs_up)%Z ∧
  (reaction_count m thumbs_up + Z.of_nat (occurrences (React 0 thumbs_up) cs) ≤ two53)%Z ∧
  ∃ m', messages (run one_message cs) !! 0 = Some m' ∧
        reaction_count m' thumbs_up = (reaction_count m thumbs_up + 2)%Z.
Proof.
  intros cs m.
  assert (Hm : messages one_message !! 0 = Some m) by (vm_compute; reflexivity).
  assert (Hk : counter_key m thumbs_up) by (vm_compute; exact I).
  assert (Hlo : (- two53 ≤ reaction_count m thumbs_up)%Z)
    by (vm_compute; discriminate).
  assert (Hhi : (reaction_count m thumbs_up
                 + Z.of_nat (occurrences (React 0 thumbs_up) cs) ≤ two53)%Z)
    by (vm_compute; discriminate).
  split; [exact Hm |]. split; [exact Hk |]. split; [exact Hlo |]. split; [exact Hhi |].
  destruct (counters_count_presses one_message cs 0 m Hm) as (m' & Hm' & _ & Hr & _).
  exists m'. split; [exact Hm' |]. rewrite (Hr thumbs_up Hk Hlo Hhi).
  assert (occurrences (React 0 thumbs_up) cs = 2) as -> by (vm_compute; reflexivity).
  reflexivity.
Defined.

(** ** Order of commands *)

Lemma reaction_read_react_once_ne e f m :
  e ≠ f → reaction_read (react_once f m) e = reaction_read m e.
Proof.
  intros Hne. unfold reaction_read, react_once. simpl.
  by rewrite lookup_insert_ne.
Qed.

Lemma react_once_commute e f m :
  react_once e (react_once f m) = react_once f (react_once e m).
Proof.
  destruct (decide (e = f)) as [-> | Hne]; [done |].
  unfold react_once at 1 3. simpl.
  rewrite !reaction_read_react_once_ne by done.
  f_equal. by apply insert_insert_ne.
Qed.

Lemma react_once_trophy_once e m :
  react_once e (trophy_once m) = trophy_once (react_once e m).
Proof. reflexivity. Qed.

Lemma imap_select_commute {A} (g h : A → A) (i j : nat) (l : list A) :
  (∀ x, g (h x) = h (g x)) →
  imap (λ k m, if bool_decide (k = i) then g m else m)
    (imap (λ k m, if bool_decide (k = j) then h m else m) l) =
  imap (λ k m, if bool_decide (k = j) then h m else m)
    (imap (λ k m, if bool_decide (k = i) then g m else m) l).
Proof.
  intros Hgh. apply list_eq. intros k. rewrite !list_lookup_imap.
  destruct (l !! k) as [x|]; simpl; [| done].
  repeat case_bool_decide; by rewrite ?Hgh.
Qed.

(** X19. Reactions commute: two [handleReact] calls, a [handleReact] and a
    [handleMatchReaction] call, or two [handleMatchReaction] calls give the
    same state in either order, whatever the messages and symbols (also the
    same message, also the same symbol). *)
Theorem reactions_commute (i j : nat) (e f : jsstring) (s : AppState) :
  handleReact i e (handleReact j f s) = handleReact j f (handleReact i e s) ∧
  handleReact i e (handleMatchReaction j s) = handleMatchReaction j (handleReact i e s) ∧
  handleMatchReaction i (handleMatchReaction j s) =
    handleMatchReaction j (handleMatchReaction i s).
Proof.
  assert (Hext : ∀ s1 s2 : AppState,
            squares s1 = squares s2 → isXNext s1 = isXNext s2 → status s1 = status s2 →
            winner s1 = winner s2 → isDraw s1 = isDraw s2 →
            chatInput s1 = chatInput s2 → messages s1 = messages s2 → s1 = s2).
  { intros [] []; simpl; congruence. }
  repeat split; apply Hext; try reflexivity.
  - rewrite !handleReact_messages. apply imap_select_commute, react_once_commute.
  - rewrite !handleReact_messages, !handleMatchReaction_messages.
    apply imap_select_commute, react_once_trophy_once.
  - rewrite !handleMatchReaction_messages. by apply imap_select_commute.
Qed.

Lemma handle_game_chat_commute g c s :
  is_game_command g = true → is_game_command c = false →
  handle g (handle c s) = handle c (handle g s).
Proof.
  destruct g as [idx | | | | |]; try discriminate; intros _;
    destruct c as [| | value | | i e | i]; try discriminate; intros _;
    cbn [handle]; try reflexivity.
  all: try (unfold handleClick; simpl;
            by destruct (truthy (get (squares s) idx) || truthy (winner s))).
  - unfold handleSendMessage, handleClick. simpl.
    case_bool_decide; simpl;
      destruct (truthy (get (squares s) idx) || truthy (winner s)); simpl;
      by rewrite ?bool_decide_eq_true_2, ?bool_decide_eq_false_2 by done.
  - unfold handleSendMessage, handleReset. simpl. by case_bool_decide.
Qed.

Lemma useEffect_status_chat c s :
  is_game_command c = false →
  useEffect_status (handle c s) = handle c (useEffect_status s).
Proof.
  destruct c as [| | value | | i e | i]; try discriminate; intros _; cbn [handle].
  2: unfold handleSendMessage; rewrite useEffect_status_chatInput;
     case_bool_decide; simpl; [done |].
  all: unfold useEffect_status; simpl;
       destruct (truthy (calculateWinner (squares s))); [done |];
       by destruct (every_truthy (squares s)).
Qed.

(** X20. A game command and a chat command can be issued in either order:
    from a rendered state, a click or a reset followed by a chat command
    leads to the same state as the chat command followed by the click or
    the reset. *)
Theorem game_and_chat_commute (s : AppState) (g c : command) :
  rendered s → is_game_command g = true → is_game_command c = false →
  run s [g; c] = run s [c; g].
Proof.
  intros Hr Hg Hc. simpl. unfold step.
  rewrite <- (useEffect_status_chat c (handle g s)) by done.
  rewrite useEffect_status_idempotent.
  rewrite (useEffect_status_chat c s) by done.
  unfold rendered in Hr. rewrite Hr.
  by rewrite (handle_game_chat_commute g c s).
Qed.

Lemma game_and_chat_commute_witness :
  rendered one_message ∧
  run one_message [Click 4; React 0 thumbs_up] = run one_message [React 0 thumbs_up; Click 4].
Proof.
  assert (H : rendered one_message) by apply run_rendered, mounted_rendered.
  split; [exact H |].
  exact (game_and_chat_commute one_message (Click 4) (React 0 thumbs_up) H eq_refl eq_refl).
Defined.

(** ** Submitting twice *)

Lemma handleSendMessage_blank s :
  trim (chatInput s) = [] → (handleSendMessage s).1 = s.
Proof. intros H. unfold handleSendMessage. by rewrite bool_decide_eq_true_2. Qed.

Lemma handleSendMessage_leaves_blank s :
  trim (chatInput (handleSendMessage s).1) = [].
Proof.
  unfold handleSendMessage. case_bool_decide as Ht; simpl; [done |].
  reflexivity.
Qed.

(** X21. Submitting the form twice in a row stores at most one message: the
    first submission clears the input (or was ignored because the input was
    blank), so the second one is ignored. *)
Theorem send_twice_is_send_once (s : AppState) :
  run s [Send; Send] = run s [Send] ∧
  length (messages (run s [Send; Send])) ≤ S (length (messages s)).
Proof.
  assert (Heq : run s [Send; Send] = run s [Send]).
  { simpl. unfold step. cbn [handle].
    rewrite handleSendMessage_blank; [apply useEffect_status_idempotent |].
    rewrite useEffect_status_chatInput. apply handleSendMessage_leaves_blank. }
  split; [exact Heq |]. rewrite Heq. simpl. rewrite step_messages. cbn [handle].
  unfold handleSendMessage. case_bool_decide; simpl; [lia |].
  rewrite length_app. simpl. lia.
Qed.

(** ** Counters in reachable states *)

(** At 2^53 a counter stays where it is: neither handler adds to it. *)
Example counters_stop_at_two53 :
  counts_of thumbs_up (handleReact 0 thumbs_up saturated_log) = [two53] ∧
  matchReactions <$> messages (handleMatchReaction 0 saturated_log) = [two53] ∧
  handleReact 0 thumbs_up saturated_log = saturated_log ∧
  handleMatchReaction 0 saturated_log = saturated_log.
Proof. repeat split; vm_compute; reflexivity. Qed.

Lemma reachable_texts cs :
  Forall texts_under_inherited_names (messages (run mounted cs)).
Proof.
  induction cs as [|c cs IH] using rev_ind; [by constructor |].
  rewrite run_snoc, step_messages.
  apply handle_messages_Forall; [done | | |]; unfold texts_under_inherited_names; simpl.
  - intros _ _ e mb k He. by rewrite lookup_empty in He.
  - intros idx emoji m _ _ Hm e mb k.
    destruct (decide (e = emoji)) as [-> | Hne]; [| rewrite lookup_insert_ne by done; apply Hm].
    rewrite lookup_insert_eq. unfold reaction_read.
    destruct (reactions m !! emoji) as [[n | mb' k'] |] eqn:E; simpl; try done.
    + intros _. by apply (Hm _ _ _ E).
    + case_bool_decide as Hin; simpl; [by intros _ | discriminate].
  - intros idx m _ Hm. exact Hm.
Qed.

(** X22. In every state reached from the mounted component, by any
    commands, a symbol that does not name a member of [Object.prototype]
    (so every symbol of [EMOJIS]) is used as a counter on every message: its
    key reads as a number or as nothing; its count and the trophy count lie
    between 0 and 2^53. *)
Theorem reachable_counters (cs : list command) (i : nat) (m : Message) (e : jsstring) :
  messages (run mounted cs) !! i = Some m →
  (e ∈ EMOJIS → e ∉ Object_prototype_names) ∧
  (e ∉ Object_prototype_names →
     counter_key m e ∧ (0 ≤ reaction_count m e ≤ two53)%Z) ∧
  (0 ≤ matchReactions m ≤ two53)%Z.
Proof.
  intros Hm.
  pose proof (run_all_bounded cs mounted mounted_all_bounded i m Hm) as [Hz Hr].
  pose proof (Forall_lookup_1 _ _ _ _ (reachable_texts cs) Hm) as Htext.
  split; [apply EMOJIS_not_inherited |]. split; [| exact Hz].
  intros He. split.
  - apply counter_key_iff. split; [| done].
    intros mb k Hk. exact (He (Htext _ _ _ Hk)).
  - unfold reaction_count.
    destruct (reactions m !! e) as [[n | mb k] |] eqn:E; try (unfold two53; lia).
    by apply (Hr e).
Qed.

Lemma reachable_counters_witness :
  let cs := [ChangeInput (lit "hi"); Send; React 0 thumbs_up] in
  let m := default (mkMessage [] ∅ 0%Z) (messages (run mounted cs) !! 0) in
  messages (run mounted cs) !! 0 = Some m ∧ (0 ≤ matchReactions m ≤ two53)%Z.
Proof.
  intros cs m.
  assert (Hm : messages (run mounted cs) !! 0 = Some m) by (vm_compute; reflexivity).
  split; [exact Hm |].
  exact (proj2 (proj2 (reachable_counters cs 0 m thumbs_up Hm))).
Defined.
